(** * nslog: a non-structured [log/slog] handler

    A shallow embedding of [log_handler.go] (package [nslog]) and the
    properties of its configuration resolver, scope accumulator and line
    renderer.

    Go strings are byte sequences: they are [string]s here, one [ascii] per
    byte.  Go's [int], [uint64], [uintptr] and [slog.Level] are [Z]; the
    code does no arithmetic on them, so no wrap-around is involved. *)

From Stdlib Require Import ZArith NArith Ascii String List Bool Lia.
From Stdlib Require Import Numbers.DecimalString.
From Stdlib Require HexadecimalPos HexadecimalN HexadecimalFacts.
From Stdlib Require DecimalPos DecimalN DecimalFacts.
From stdpp Require Import base option list strings gmap functions.

(* stdpp blocks the unfolding of string append; the proofs below compute with it. *)
#[local] Arguments String.append !_ _ / : simpl nomatch.

Local Open Scope string_scope.
Local Open Scope list_scope.
Local Open Scope Z_scope.

(** ** The parts of the Go standard library that the handler calls *)

Module GoLib.

(** The bytes of a string, as numbers. *)
Definition byte_val (c : ascii) : Z := Z.of_N (N_of_ascii c).

Definition bytes_of (s : string) : list Z :=
  map byte_val (list_ascii_of_string s).

(** [strings.Join(elems, sep)]. *)
Fixpoint Join (elems : list string) (sep : string) : string :=
  match elems with
  | [] => ""
  | e :: rest =>
      match rest with
      | [] => e
      | _ :: _ => e +:+ sep +:+ Join rest sep
      end
  end.

(** [strconv.Itoa] / [strconv.FormatInt(v, 10)]. *)
Definition Itoa (v : Z) : string := NilZero.string_of_int (Z.to_int v).

(** [strconv.FormatUint(v, 10)], for [0 <= v]. *)
Definition FormatUint (v : Z) : string := NilZero.string_of_uint (N.to_uint (Z.to_N v)).

(** [strconv.FormatBool]. *)
Definition FormatBool (b : bool) : string := if b then "true" else "false".

(** Upper-case hexadecimal digits of a natural number, most significant
    first, as the verb [%X] prints them. *)
Fixpoint hex_upper (d : Hexadecimal.uint) : string :=
  match d with
  | Hexadecimal.Nil => ""
  | Hexadecimal.D0 d => String "0" (hex_upper d)
  | Hexadecimal.D1 d => String "1" (hex_upper d)
  | Hexadecimal.D2 d => String "2" (hex_upper d)
  | Hexadecimal.D3 d => String "3" (hex_upper d)
  | Hexadecimal.D4 d => String "4" (hex_upper d)
  | Hexadecimal.D5 d => String "5" (hex_upper d)
  | Hexadecimal.D6 d => String "6" (hex_upper d)
  | Hexadecimal.D7 d => String "7" (hex_upper d)
  | Hexadecimal.D8 d => String "8" (hex_upper d)
  | Hexadecimal.D9 d => String "9" (hex_upper d)
  | Hexadecimal.Da d => String "A" (hex_upper d)
  | Hexadecimal.Db d => String "B" (hex_upper d)
  | Hexadecimal.Dc d => String "C" (hex_upper d)
  | Hexadecimal.Dd d => String "D" (hex_upper d)
  | Hexadecimal.De d => String "E" (hex_upper d)
  | Hexadecimal.Df d => String "F" (hex_upper d)
  end.

Definition hex_digits (n : N) : string := hex_upper (N.to_hex_uint n).

Fixpoint zeros (n : nat) : string :=
  match n with
  | O => ""
  | S k => String "0" (zeros k)
  end.

(** [fmt.Sprintf("%0<wid>X", v)] for an integer [v]: the digits are padded
    with zeros up to the width, which is a minimum; a sign takes one
    column of it. *)
Definition Sprintf_0X (wid : nat) (v : Z) : string :=
  let digits := hex_digits (Z.abs_N v) in
  let prec := if v <? 0 then Nat.pred wid else wid in
  let padded := zeros (prec - String.length digits)%nat +:+ digits in
  if v <? 0 then String "-" padded else padded.

(** *** [unicode/utf8] and [strings.EqualFold] *)

Definition RuneSelf : Z := 128.
Definition RuneError : Z := 65533.

Definition in_range (lo hi b : Z) : bool := (lo <=? b) && (b <=? hi).

(** [utf8.DecodeRuneInString]: the first rune of [p] and its width in
    bytes; [(RuneError, 1)] for an encoding that is not valid (too short,
    overlong, a surrogate, out of range), [(RuneError, 0)] for no bytes. *)
Definition DecodeRune (p : list Z) : Z * nat :=
  match p with
  | [] => (RuneError, 0%nat)
  | b0 :: p1 =>
      if b0 <? RuneSelf then (b0, 1%nat)
      else if in_range 194 223 b0 then
        match p1 with
        | b1 :: _ =>
            if in_range 128 191 b1
            then (Z.lor (Z.shiftl (Z.land b0 31) 6) (Z.land b1 63), 2%nat)
            else (RuneError, 1%nat)
        | _ => (RuneError, 1%nat)
        end
      else if in_range 224 239 b0 then
        let lo := if b0 =? 224 then 160 else 128 in
        let hi := if b0 =? 237 then 159 else 191 in
        match p1 with
        | b1 :: b2 :: _ =>
            if in_range lo hi b1 && in_range 128 191 b2
            then (Z.lor (Z.shiftl (Z.land b0 15) 12)
                   (Z.lor (Z.shiftl (Z.land b1 63) 6) (Z.land b2 63)), 3%nat)
            else (RuneError, 1%nat)
        | _ => (RuneError, 1%nat)
        end
      else if in_range 240 244 b0 then
        let lo := if b0 =? 240 then 144 else 128 in
        let hi := if b0 =? 244 then 143 else 191 in
        match p1 with
        | b1 :: b2 :: b3 :: _ =>
            if in_range lo hi b1 && in_range 128 191 b2 && in_range 128 191 b3
            then (Z.lor (Z.shiftl (Z.land b0 7) 18)
                   (Z.lor (Z.shiftl (Z.land b1 63) 12)
                     (Z.lor (Z.shiftl (Z.land b2 63) 6) (Z.land b3 63))), 4%nat)
            else (RuneError, 1%nat)
        | _ => (RuneError, 1%nat)
        end
      else (RuneError, 1%nat)
  end.

(** The runes that [for _, r := range s] yields; [skip] counts the
    continuation bytes of the rune decoded last. *)
Fixpoint runes_from (skip : nat) (s : list Z) : list Z :=
  match s with
  | [] => []
  | _ :: s' =>
      match skip with
      | S k => runes_from k s'
      | O => let '(r, size) := DecodeRune s in r :: runes_from (Nat.pred size) s'
      end
  end.

Definition runes (s : list Z) : list Z := runes_from 0 s.

(** [unicode.SimpleFold] on the orbits that contain an ASCII rune: the two
    cases of a letter, with U+212A (Kelvin sign) next to [k] and U+017F
    (long s) next to [s].  Every call of [strings.EqualFold] in the
    handler has an ASCII literal as one argument, so the loop below only
    walks these orbits; other runes are left where they are. *)
Definition SimpleFold (r : Z) : Z :=
  if r =? 75 then 107
  else if r =? 107 then 8490
  else if r =? 8490 then 75
  else if r =? 83 then 115
  else if r =? 115 then 383
  else if r =? 383 then 83
  else if in_range 65 90 r then r + 32
  else if in_range 97 122 r then r - 32
  else r.

(** [for r != sr && r < tr { r = unicode.SimpleFold(r) }]; an orbit has
    at most four runes, which bounds the loop. *)
Fixpoint fold_until (fuel : nat) (r sr tr : Z) : Z :=
  match fuel with
  | O => r
  | S k => if negb (r =? sr) && (r <? tr) then fold_until k (SimpleFold r) sr tr else r
  end.

Definition is_upper_of (sr tr : Z) : bool :=
  in_range 65 90 sr && (tr =? sr + 32).

(** The part of [strings.EqualFold] after the label [hasUnicode]: [srs]
    are the runes left in [s], [t] the bytes left in [t]. *)
Fixpoint EqualFold_unicode (srs : list Z) (t : list Z) : bool :=
  match srs with
  | [] => match t with [] => true | _ :: _ => false end
  | sr :: srs' =>
      match t with
      | [] => false
      | t0 :: _ =>
          let '(tr, size) := if t0 <? RuneSelf then (t0, 1%nat) else DecodeRune t in
          let t' := drop size t in
          if tr =? sr then EqualFold_unicode srs' t'
          else
            let '(sr, tr) := if tr <? sr then (tr, sr) else (sr, tr) in
            if tr <? RuneSelf then
              if is_upper_of sr tr then EqualFold_unicode srs' t' else false
            else
              let r := fold_until 4 (SimpleFold sr) sr tr in
              if r =? tr then EqualFold_unicode srs' t' else false
      end
  end.

(** The ASCII fast path of [strings.EqualFold], which hands over to the
    general path at the first byte that is not ASCII. *)
Fixpoint EqualFold_bytes (s t : list Z) : bool :=
  match s, t with
  | sr :: s', tr :: t' =>
      if RuneSelf <=? Z.lor sr tr then EqualFold_unicode (runes s) t
      else if tr =? sr then EqualFold_bytes s' t'
      else
        let '(sr, tr) := if tr <? sr then (tr, sr) else (sr, tr) in
        if is_upper_of sr tr then EqualFold_bytes s' t' else false
  | [], [] => true
  | _, _ => false
  end.

Definition EqualFold (s t : string) : bool :=
  EqualFold_bytes (bytes_of s) (bytes_of t).

(** *** [bytes.TrimPrefix], [bytes.IndexByte], [strconv.ParseUint] *)

Definition TrimPrefix (b pre : string) : string :=
  if String.prefix pre b then substring (String.length pre) (String.length b - String.length pre) b
  else b.

(** [bytes.IndexByte(b, c)]; [None] stands for [-1]. *)
Fixpoint IndexByte (b : string) (c : ascii) : option nat :=
  match b with
  | EmptyString => None
  | String x b' => if Ascii.eqb x c then Some O else S <$> IndexByte b' c
  end.

Definition maxUint64 : Z := 18446744073709551615.

(** The digit loop of [strconv.ParseUint(s, 10, 64)]: [None] is a syntax
    error; past the range the result sticks at [maxUint64]. *)
Fixpoint ParseUint_loop (s : list Z) (n : Z) : option Z :=
  match s with
  | [] => Some n
  | c :: s' =>
      if in_range 48 57 c then
        if maxUint64 / 10 + 1 <=? n then Some maxUint64
        else
          let n1 := n * 10 + (c - 48) in
          if maxUint64 <? n1 then Some maxUint64 else ParseUint_loop s' n1
      else None
  end.

(** The value that [strconv.ParseUint(s, 10, 64)] returns; the handler
    drops the error, and the value is [0] on a syntax error. *)
Definition ParseUint (s : string) : Z :=
  match s with
  | EmptyString => 0
  | _ => default 0 (ParseUint_loop (bytes_of s) 0)
  end.

End GoLib.

Import GoLib.

(** ** [log/slog]: levels, values, attributes, records *)

Module slog.

(** [type Level int] and its four named constants. *)
Definition Level : Type := Z.
Definition LevelDebug : Level := -4.
Definition LevelInfo : Level := 0.
Definition LevelWarn : Level := 4.
Definition LevelError : Level := 8.

(** A [slog.Leveler] is an interface with one method, [Level()].  The
    standard library implements it twice: by [Level] itself and by
    [*LevelVar], a variable that the program may set at any time. *)
Inductive Leveler : Type :=
  | LevelOf (l : Level)
  | LevelVarOf (p : nat).

(** A [slog.Value], by kind.  [AnyValue (Some p)] holds some other Go value
    (a pointer, a slice, a map, a [fmt.Stringer], ...), known here as
    object [p]; [AnyValue None] holds [nil], which is also the zero
    [Value]. *)
Inductive Value : Type :=
  | StringValue (s : string)
  | Int64Value (v : Z)
  | Uint64Value (v : Z)
  | BoolValue (b : bool)
  | AnyValue (a : option nat).

Record Attr : Type := mkAttr { Key : string; Value_ : Value }.

(** [Value.String]: the scalar kinds print their value; [KindAny] goes
    through [fmt.Append], which prints the object as it is when the call
    is made, given here by [objects]. *)
Definition Value_String (objects : nat -> string) (v : Value) : string :=
  match v with
  | StringValue s => s
  | Int64Value n => GoLib.Itoa n
  | Uint64Value n => GoLib.FormatUint n
  | BoolValue b => GoLib.FormatBool b
  | AnyValue (Some p) => objects p
  | AnyValue None => "<nil>"
  end.

(** A [slog.Record]: [Attrs] lists what [Record.Attrs] visits, in order;
    [Time] is an instant, which only [Time.Format] looks into. *)
Record Record_ : Type := mkRecord {
  Time : Z;
  Message : string;
  Level_ : Level;
  PC : Z;
  Attrs : list Attr
}.

End slog.

(** ** Memory: slices over shared backing arrays *)

(** A Go slice: a backing array, a length and a capacity.  Every slice of
    the handler starts at the beginning of its array. *)
Record Slice : Type := mkSlice { ptr : nat; len : nat; cap : nat }.

Definition nil_slice : Slice := mkSlice 0 0 0.

(** [slices.Clip(s)], that is [s[:len(s):len(s)]]. *)
Definition Clip (s : Slice) : Slice := mkSlice (ptr s) (len s) (len s).

Section Slices.
Context {A : Type}.
Variable zero : A.
(** [grow oldcap needed] is the spare capacity that the runtime adds
    when [append] has to allocate. *)
Variable grow : nat -> nat -> nat.

(** The elements that the slice shows. *)
Definition view (mem : list (list A)) (s : Slice) : list A :=
  take (len s) (default [] (mem !! ptr s)).

(** [append(s, xs...)]: in place when the capacity allows, which
    overwrites the array behind every slice that shares it; into a new
    array otherwise. *)
Definition append (mem : list (list A)) (s : Slice) (xs : list A)
  : list (list A) * Slice :=
  let n := (len s + length xs)%nat in
  if (n <=? cap s)%nat then
    let arr := default [] (mem !! ptr s) in
    (<[ptr s := take (len s) arr ++ xs ++ drop n arr]> mem,
     mkSlice (ptr s) n (cap s))
  else
    let newcap := (n + grow (cap s) n)%nat in
    (mem ++ [view mem s ++ xs ++ replicate (newcap - n) zero],
     mkSlice (length mem) n newcap).
End Slices.

(** ** The handler *)

Definition DEFAULT_LEVEL : slog.Level := slog.LevelInfo.
Definition DEFAULT_TIME_LAYOUT : string := "2006/01/02 15:04:05".
Definition DEFAULT_SOURCE_LEVEL : slog.Level := slog.LevelWarn.

(** [LogHandlerOptions]; an interface field that is [nil] is [None]. *)
Record LogHandlerOptions : Type := mkOptions {
  Level : option slog.Leveler;
  AddColor : bool;
  TimeLayout : string;
  AddPID : bool;
  AddGoroutineID : bool;
  AddSourceLevel : option slog.Leveler;
  SourceFilePath : bool
}.

(** [&LogHandlerOptions{}]: every field at its zero value. *)
Definition zero_options : LogHandlerOptions :=
  mkOptions None false "" false false None false.

(** [LogHandler].  [mutex] and [writer] name the shared [*sync.Mutex] and
    [io.Writer]; the two slices point into the memory of the state.  The
    code hands handlers around by pointer but never assigns to a field of
    one after it is returned, so a handler is a value here; its mutex and
    its writer are taken to be there (not nil). *)
Record LogHandler : Type := mkHandler {
  options : LogHandlerOptions;
  attrs : Slice;
  groups : Slice;
  mutex : nat;
  writer : nat
}.

(** An [io.Writer] that keeps what it is given, or fails with an error and
    keeps nothing. *)
Record Writer : Type := mkWriter { written : string; failure : option string }.

Definition Write (wr : Writer) (p : string) : Writer * option string :=
  match failure wr with
  | Some e => (wr, Some e)
  | None => (mkWriter (written wr +:+ p) None, None)
  end.

(** What the handler asks of the process and of its other packages. *)
Record World : Type := mkWorld {
  environ : gmap string string;
  Getpid : Z;
  (** the text that [runtime.Stack] has for the calling goroutine *)
  Stack : string;
  Time_Format : Z -> string -> string;
  (** [runtime.CallersFrames([]uintptr{pc}).Next()]: file and line *)
  CallersFrame : Z -> string * Z;
  filepath_Base : string -> string;
  HiRedString : string -> string;
  HiYellowString : string -> string;
  HiGreenString : string -> string;
  HiCyanString : string -> string;
  growslice : nat -> nat -> nat
}.

(** [os.Getenv]: the empty string for a variable that is not set. *)
Definition Getenv (w : World) (key : string) : string :=
  default "" (environ w !! key).

(** The mutable state that the handler works on. *)
Record State : Type := mkState {
  attr_arrays : list (list slog.Attr);
  string_arrays : list (list string);
  options_objs : list LogHandlerOptions;
  mutexes : nat;
  writers : nat -> Writer;
  (** what [fmt] prints for each object at present *)
  objects : nat -> string;
  levelvars : nat -> slog.Level
}.

Definition set_attr_arrays (m : list (list slog.Attr)) (st : State) : State :=
  mkState m (string_arrays st) (options_objs st) (mutexes st) (writers st)
    (objects st) (levelvars st).

Definition set_string_arrays (m : list (list string)) (st : State) : State :=
  mkState (attr_arrays st) m (options_objs st) (mutexes st) (writers st)
    (objects st) (levelvars st).

Definition set_options_objs (m : list LogHandlerOptions) (st : State) : State :=
  mkState (attr_arrays st) (string_arrays st) m (mutexes st) (writers st)
    (objects st) (levelvars st).

Definition set_mutexes (n : nat) (st : State) : State :=
  mkState (attr_arrays st) (string_arrays st) (options_objs st) n (writers st)
    (objects st) (levelvars st).

Definition set_writers (f : nat -> Writer) (st : State) : State :=
  mkState (attr_arrays st) (string_arrays st) (options_objs st) (mutexes st) f
    (objects st) (levelvars st).

(** [l.Level()] for an interface value [l]; calling it on [nil] panics,
    which is [None]. *)
Definition Leveler_Level (st : State) (l : option slog.Leveler) : option slog.Level :=
  match l with
  | None => None
  | Some (slog.LevelOf v) => Some v
  | Some (slog.LevelVarOf p) => Some (levelvars st p)
  end.

Definition zero_Attr : slog.Attr := slog.mkAttr "" (slog.AnyValue None).

(** *** [NewLogHandler] *)

Definition set_Level (v : option slog.Leveler) (o : LogHandlerOptions) :=
  mkOptions v (AddColor o) (TimeLayout o) (AddPID o) (AddGoroutineID o)
    (AddSourceLevel o) (SourceFilePath o).
Definition set_AddColor (v : bool) (o : LogHandlerOptions) :=
  mkOptions (Level o) v (TimeLayout o) (AddPID o) (AddGoroutineID o)
    (AddSourceLevel o) (SourceFilePath o).
Definition set_TimeLayout (v : string) (o : LogHandlerOptions) :=
  mkOptions (Level o) (AddColor o) v (AddPID o) (AddGoroutineID o)
    (AddSourceLevel o) (SourceFilePath o).
Definition set_AddPID (v : bool) (o : LogHandlerOptions) :=
  mkOptions (Level o) (AddColor o) (TimeLayout o) v (AddGoroutineID o)
    (AddSourceLevel o) (SourceFilePath o).
Definition set_AddGoroutineID (v : bool) (o : LogHandlerOptions) :=
  mkOptions (Level o) (AddColor o) (TimeLayout o) (AddPID o) v
    (AddSourceLevel o) (SourceFilePath o).
Definition set_AddSourceLevel (v : option slog.Leveler) (o : LogHandlerOptions) :=
  mkOptions (Level o) (AddColor o) (TimeLayout o) (AddPID o) (AddGoroutineID o)
    v (SourceFilePath o).
Definition set_SourceFilePath (v : bool) (o : LogHandlerOptions) :=
  mkOptions (Level o) (AddColor o) (TimeLayout o) (AddPID o) (AddGoroutineID o)
    (AddSourceLevel o) v.

(** "set default parameters" *)
Definition set_defaults (o : LogHandlerOptions) : LogHandlerOptions :=
  let o := match Level o with
           | None => set_Level (Some (slog.LevelOf DEFAULT_LEVEL)) o
           | Some _ => o
           end in
  let o := if String.eqb (TimeLayout o) "" then set_TimeLayout DEFAULT_TIME_LAYOUT o else o in
  match AddSourceLevel o with
  | None => set_AddSourceLevel (Some (slog.LevelOf DEFAULT_SOURCE_LEVEL)) o
  | Some _ => o
  end.

(** The [switch] over a level variable: the new value of the field. *)
Definition switch_level (v : string) (prior : option slog.Leveler) : option slog.Leveler :=
  if String.eqb v "ERROR" then Some (slog.LevelOf slog.LevelError)
  else if String.eqb v "WARN" then Some (slog.LevelOf slog.LevelWarn)
  else if String.eqb v "INFO" then Some (slog.LevelOf slog.LevelInfo)
  else if String.eqb v "DEBUG" then Some (slog.LevelOf slog.LevelDebug)
  else prior.

(** The [if]/[else if]/[else] over a boolean variable. *)
Definition if_flag (v : string) (prior : bool) : bool :=
  if EqualFold v "false" || String.eqb v "0" then false
  else if EqualFold v "true" || String.eqb v "1" then true
  else prior.

(** "override parameters by environment variables" *)
Definition override_by_env (w : World) (o : LogHandlerOptions) : LogHandlerOptions :=
  let o := set_Level (switch_level (Getenv w "GO_NSLOG_LEVEL") (Level o)) o in
  let nslogAddColor := Getenv w "GO_NSLOG_ADD_COLOR" in
  let o := set_AddColor (if_flag nslogAddColor (AddColor o)) o in
  let nslogTimeLayout := Getenv w "GO_NSLOG_TIME_LAYOUT" in
  let o := if negb (String.eqb nslogTimeLayout "") then set_TimeLayout nslogTimeLayout o else o in
  let nslogAddPID := Getenv w "GO_NSLOG_ADD_PID" in
  let o := set_AddPID (if_flag nslogAddPID (AddPID o)) o in
  let nslogAddGoroutineID := Getenv w "GO_NSLOG_ADD_GOROUTINEID" in
  let o := set_AddGoroutineID (if_flag nslogAddGoroutineID (AddGoroutineID o)) o in
  let o := set_AddSourceLevel
             (switch_level (Getenv w "GO_NSLOG_ADD_SOURCE_LEVEL") (AddSourceLevel o)) o in
  let nslogSourceFilePath := Getenv w "GO_NSLOG_SOURCE_FILE_PATH" in
  set_SourceFilePath (if_flag nslogSourceFilePath (SourceFilePath o)) o.

(** [NewLogHandler(writer, options)].  [options] is a pointer: [None] for
    [nil], [Some p] for the object [p] of [options_objs].  Every
    assignment [options.F = v] goes through the pointer, so the object
    ends as the resolved options; the handler gets a copy of it, a new
    mutex and two nil slices. *)
Definition NewLogHandler (w : World) (st : State) (writer_ : nat) (options_ : option nat)
  : State * LogHandler :=
  let '(st, p) :=
    match options_ with
    | None => (set_options_objs (options_objs st ++ [zero_options]) st,
               length (options_objs st))
    | Some p => (st, p)
    end in
  let o := default zero_options (options_objs st !! p) in
  let o := set_defaults o in
  let o := override_by_env w o in
  let st := set_options_objs (<[p := o]> (options_objs st)) st in
  (set_mutexes (S (mutexes st)) st,
   mkHandler o nil_slice nil_slice (mutexes st) writer_).

(** *** [clone], [Enabled], [WithAttrs], [WithGroup] *)

Definition clone (handler : LogHandler) : LogHandler :=
  mkHandler (options handler) (Clip (attrs handler)) (Clip (groups handler))
    (mutex handler) (writer handler).

(** [None] when [options.Level] is [nil]: the call panics. *)
Definition Enabled (st : State) (handler : LogHandler) (level : slog.Level) : option bool :=
  min_level ← Leveler_Level st (Level (options handler));
  Some (min_level <=? level).

Definition WithAttrs (w : World) (st : State) (handler : LogHandler)
    (attrs_ : list slog.Attr) : State * LogHandler :=
  let new_handler := clone handler in
  let '(mem, s) := append zero_Attr (growslice w) (attr_arrays st) (attrs new_handler) attrs_ in
  (set_attr_arrays mem st,
   mkHandler (options new_handler) s (groups new_handler)
     (mutex new_handler) (writer new_handler)).

Definition WithGroup (w : World) (st : State) (handler : LogHandler)
    (name : string) : State * LogHandler :=
  let new_handler := clone handler in
  let '(mem, s) := append "" (growslice w) (string_arrays st) (groups new_handler) [name] in
  (set_string_arrays mem st,
   mkHandler (options new_handler) (attrs new_handler) s
     (mutex new_handler) (writer new_handler)).

(** *** [Handle] *)

Definition LF : string := String (ascii_of_nat 10) "".

(** [key=value] for one attribute, as [Handle] prints it. *)
Definition key_value (st : State) (attribute : slog.Attr) : string :=
  slog.Key attribute +:+ "=" +:+ slog.Value_String (objects st) (slog.Value_ attribute).

(** "pid" *)
Definition Handle_pid (w : World) (handler : LogHandler) : Z :=
  if AddPID (options handler) then Getpid w else 0.

(** "goroutineid": the decimal number after ["goroutine "] in the first
    64 bytes of the stack text.  [None] when no space follows it:
    slicing with [-1] panics. *)
Definition Handle_goroutineID (w : World) (handler : LogHandler) : option Z :=
  if AddGoroutineID (options handler) then
    let b := substring 0 64 (Stack w) in
    let b := TrimPrefix b "goroutine " in
    i ← IndexByte b " ";
    let idField := substring 0 i b in
    Some (ParseUint idField)
  else Some 0.

(** "level" *)
Definition Handle_level (w : World) (handler : LogHandler) (record : slog.Record_) : string :=
  let l := slog.Level_ record in
  if l =? slog.LevelError then
    if AddColor (options handler) then HiRedString w "ERROR" else "ERROR"
  else if l =? slog.LevelWarn then
    if AddColor (options handler) then HiYellowString w "WARN." else "WARN."
  else if l =? slog.LevelInfo then
    if AddColor (options handler) then HiGreenString w "INFO." else "INFO."
  else if l =? slog.LevelDebug then
    if AddColor (options handler) then HiCyanString w "DEBUG" else "DEBUG"
  else "UNSET".

(** "withGroup", "withAttributes", "with": the scope prefix. *)
Definition Handle_with (st : State) (handler : LogHandler) : string :=
  let withGroup :=
    if (0 <? len (groups handler))%nat
    then Join (view (string_arrays st) (groups handler)) "."
    else "" in
  let withAttributes := map (key_value st) (view (attr_arrays st) (attrs handler)) in
  let with_ :=
    if (0 <? length withAttributes)%nat
    then withGroup +:+ "[" +:+ Join withAttributes " " +:+ "]"
    else withGroup in
  if negb (String.eqb with_ "") then with_ +:+ ":" else with_.

(** "source"; [None] when [options.AddSourceLevel] is [nil]. *)
Definition Handle_source (w : World) (st : State) (handler : LogHandler)
    (record : slog.Record_) : option string :=
  source_level ← Leveler_Level st (AddSourceLevel (options handler));
  Some
    (if source_level <=? slog.Level_ record then
       if negb (slog.PC record =? 0) then
         let '(file, line) := CallersFrame w (slog.PC record) in
         if SourceFilePath (options handler)
         then "(" +:+ file +:+ ":" +:+ Itoa line +:+ ")"
         else "(" +:+ filepath_Base w file +:+ ":" +:+ Itoa line +:+ ")"
       else ""
     else "").

(** The fields of the line, from [log_strings := []string{time}] to the
    last [append]. *)
Definition Handle_log_strings (time_ : string) (pid goroutineID : Z)
    (level with_ message : string) (attributes : list string) (source : string)
  : list string :=
  let log_strings := [time_] in
  let log_strings :=
    if 0 <? pid then log_strings ++ [Sprintf_0X 4 pid] else log_strings in
  let log_strings :=
    if 0 <? goroutineID then log_strings ++ [Sprintf_0X 8 goroutineID] else log_strings in
  let log_strings := log_strings ++ [level] in
  let log_strings :=
    if negb (String.eqb with_ "") then log_strings ++ [with_] else log_strings in
  let log_strings := log_strings ++ [message] in
  let log_strings :=
    if (0 <? length attributes)%nat
    then log_strings ++ [Join attributes " "] else log_strings in
  if negb (String.eqb source "") then log_strings ++ [source] else log_strings.

(** The bytes that [Handle] is about to write; [None] when it panics
    before that. *)
Definition Handle_log_bytes (w : World) (st : State) (handler : LogHandler)
    (record : slog.Record_) : option string :=
  let time_ := Time_Format w (slog.Time record) (TimeLayout (options handler)) in
  let pid := Handle_pid w handler in
  goroutineID ← Handle_goroutineID w handler;
  let level := Handle_level w handler record in
  let with_ := Handle_with st handler in
  let message := slog.Message record in
  let attributes := map (key_value st) (slog.Attrs record) in
  source ← Handle_source w st handler record;
  Some (Join (Handle_log_strings time_ pid goroutineID level with_ message
                attributes source) " " +:+ LF).

(** [Handle]: the line goes to the handler's writer under the handler's
    mutex, which is free again on return; the result is the new state and
    the error of [Write]. *)
Definition Handle (w : World) (st : State) (handler : LogHandler)
    (record : slog.Record_) : option (State * option string) :=
  log_bytes ← Handle_log_bytes w st handler record;
  let '(wr, err) := Write (writers st (writer handler)) log_bytes in
  Some (set_writers (<[writer handler := wr]> (writers st)) st, err).

(** ** Sample worlds and states *)

(** A process with the given environment, PID [0x1234], goroutine 1, a
    clock that prints its layout, and an allocator that gives [spare] more
    slots than asked. *)
Definition sample_world (env : gmap string string) (spare : nat) : World :=
  mkWorld env 4660 "goroutine 1 [running]:"
    (fun _ layout => layout) (fun _ => ("/src/app/main.go", 19)) (fun _ => "main.go")
    (fun s => s) (fun s => s) (fun s => s) (fun s => s) (fun _ _ => spare).

(** Nothing allocated, every writer empty and working. *)
Definition sample_state : State :=
  mkState [] [] [] 0 (fun _ => mkWriter "" None) (fun _ => "") (fun _ => 0).

Definition sample_record (level : slog.Level) (msg : string) (attrs_ : list slog.Attr)
  : slog.Record_ :=
  slog.mkRecord 0 msg level 0 attrs_.

(** ** Well-formed slices and what a handler shows *)

(** The backing array of a slice holds at least [len] elements. *)
Definition slice_wf {A : Type} (mem : list (list A)) (s : Slice) : Prop :=
  (len s <= length (default [] (mem !! ptr s)))%nat.

Definition handler_wf (st : State) (h : LogHandler) : Prop :=
  slice_wf (attr_arrays st) (attrs h) /\ slice_wf (string_arrays st) (groups h).

(** The two sequences of a handler snapshot. *)
Definition attributes_of (st : State) (h : LogHandler) : list slog.Attr :=
  view (attr_arrays st) (attrs h).

Definition groupNames_of (st : State) (h : LogHandler) : list string :=
  view (string_arrays st) (groups h).

(** [st'] has every array of [st] as it was, and possibly new ones. *)
Definition mem_extends {A : Type} (mem mem' : list (list A)) : Prop :=
  forall i arr, mem !! i = Some arr -> mem' !! i = Some arr.

(** A derivation step only allocates: arrays stay, the rest of the state
    is the same. *)
Definition state_extends (st st' : State) : Prop :=
  mem_extends (attr_arrays st) (attr_arrays st')
  /\ mem_extends (string_arrays st) (string_arrays st')
  /\ options_objs st' = options_objs st
  /\ mutexes st' = mutexes st
  /\ writers st' = writers st
  /\ objects st' = objects st
  /\ levelvars st' = levelvars st.

(** A root handler and a child of it whose [groups] slice has spare
    capacity: the situation in which an [append] without [Clip] would
    write into a shared array. *)
Definition sample_root : State * LogHandler :=
  NewLogHandler (sample_world ∅ 3) sample_state 0 None.

Definition sample_parent : State * LogHandler :=
  WithGroup (sample_world ∅ 3) (fst sample_root) (snd sample_root) "G1".

(** ** The scope prefix and the fields, as the specification words them *)

(** "dot-joined groupNames (if any), followed immediately by [ +
    space-joined key=value from attributes (if any) + ], followed by a
    trailing : if either part is non-empty". *)
Definition scope_prefix (st : State) (groupNames : list string)
    (attributes : list slog.Attr) : string :=
  let group_part := Join groupNames "." in
  let bracket_part :=
    match attributes with
    | [] => ""
    | _ :: _ => "[" +:+ Join (map (key_value st) attributes) " " +:+ "]"
    end in
  if String.eqb (group_part +:+ bracket_part) "" then ""
  else (group_part +:+ bracket_part) +:+ ":".

(** The same prefix in words of its own, with nothing of the handler's
    code in it.  Strings with [sep] between each two of them, and nowhere
    else: *)
Definition joined_by (sep : string) (xs : list string) : string :=
  match xs with
  | [] => ""
  | x :: rest => fold_left (fun joined y => joined +:+ sep +:+ y) rest x
  end.

(** "key=value": the key, an equals sign, the string form of the value. *)
Definition pair_text (objects_ : nat -> string) (a : slog.Attr) : string :=
  slog.Key a +:+ "=" +:+ slog.Value_String objects_ (slog.Value_ a).

(** The dot-joined names, then at once the bracketed, space-joined
    pairs if there are attributes, then a colon if either part is not
    empty. *)
Definition scope_prefix_text (objects_ : nat -> string) (groupNames : list string)
    (attributes : list slog.Attr) : string :=
  let names_part := joined_by "." groupNames in
  let bracket_part :=
    match attributes with
    | [] => ""
    | _ :: _ => "[" +:+ joined_by " " (map (pair_text objects_) attributes) +:+ "]"
    end in
  if String.eqb names_part "" && String.eqb bracket_part "" then ""
  else names_part +:+ bracket_part +:+ ":".

(** A field that is in the line only when [present]. *)
Definition optional (present : bool) (field : string) : list string :=
  if present then [field] else [].

(** One step of a derivation chain. *)
Inductive derivation : Type :=
  | Group (name : string)
  | Attributes (attrs_ : list slog.Attr).

Definition derive (w : World) (sh : State * LogHandler) (d : derivation)
  : State * LogHandler :=
  match d with
  | Group name => WithGroup w (fst sh) (snd sh) name
  | Attributes xs => WithAttrs w (fst sh) (snd sh) xs
  end.

Definition derive_all (w : World) (sh : State * LogHandler) (ds : list derivation)
  : State * LogHandler :=
  fold_left (derive w) ds sh.

(** The group names of a chain among themselves, and its attributes. *)
Fixpoint names_of (ds : list derivation) : list string :=
  match ds with
  | [] => []
  | Group name :: ds' => name :: names_of ds'
  | Attributes _ :: ds' => names_of ds'
  end.

Fixpoint attributes_in (ds : list derivation) : list slog.Attr :=
  match ds with
  | [] => []
  | Group _ :: ds' => attributes_in ds'
  | Attributes xs :: ds' => xs ++ attributes_in ds'
  end.

(** The scope prefix that a handler renders. *)
Definition rendered_prefix (sh : State * LogHandler) : string :=
  Handle_with (fst sh) (snd sh).

(** "Fields are assembled, in order, omitting any that are empty"; "All
    present fields are joined with single spaces; exactly one line
    terminator ends the line". *)
Definition line_omitting_empty (fields : list string) : string :=
  Join (filter (fun f => f <> "") fields) " " +:+ LF.

(** The handler with another [options.Level]. *)
Definition with_Level (l : option slog.Leveler) (h : LogHandler) : LogHandler :=
  mkHandler (set_Level l (options h)) (attrs h) (groups h) (mutex h) (writer h).

(** The program changes what an object prints as. *)
Definition set_objects (f : nat -> string) (st : State) : State :=
  mkState (attr_arrays st) (string_arrays st) (options_objs st) (mutexes st)
    (writers st) f (levelvars st).

(** A value whose string form is the same whenever it is printed. *)
Definition fixed_string (v : slog.Value) : bool :=
  match v with
  | slog.AnyValue (Some _) => false
  | _ => true
  end.

(** What the writer of a handler holds after [Handle], and the error. *)
Definition Handle_output (w : World) (st : State) (h : LogHandler) (r : slog.Record_)
  : option (string * option string) :=
  '(st', err) ← Handle w st h r;
  Some (written (writers st' (writer h)), err).

(** A process whose PID and goroutine ID need more than four and eight
    hexadecimal digits, with both fields switched on by the environment. *)
Definition busy_world : World :=
  mkWorld (<["GO_NSLOG_ADD_PID" := "1"]> (<["GO_NSLOG_ADD_GOROUTINEID" := "1"]> ∅))
    70000 "goroutine 4294967296 [running]:"
    (fun _ layout => layout) (fun _ => ("/src/app/main.go", 19)) (fun _ => "main.go")
    (fun s => s) (fun s => s) (fun s => s) (fun s => s) (fun _ _ => 0%nat).

(** The value of a string of upper-case hexadecimal digits; [None] when
    another character occurs. *)
Definition hex_digit_value (c : ascii) : option N :=
  let n := N_of_ascii c in
  if ((48 <=? n) && (n <=? 57))%N then Some (n - 48)%N
  else if ((65 <=? n) && (n <=? 70))%N then Some (n - 55)%N
  else None.

Fixpoint hex_value_from (acc : N) (s : string) : option N :=
  match s with
  | EmptyString => Some acc
  | String c s' =>
      d ← hex_digit_value c;
      hex_value_from (16 * acc + d)%N s'
  end.

Definition hex_value (s : string) : option N := hex_value_from 0 s.

(** The value of hexadecimal digits, most significant first. *)
Fixpoint uint_value_from (acc : N) (d : Hexadecimal.uint) : N :=
  match d with
  | Hexadecimal.Nil => acc
  | Hexadecimal.D0 d => uint_value_from (16 * acc) d
  | Hexadecimal.D1 d => uint_value_from (16 * acc + 1) d
  | Hexadecimal.D2 d => uint_value_from (16 * acc + 2) d
  | Hexadecimal.D3 d => uint_value_from (16 * acc + 3) d
  | Hexadecimal.D4 d => uint_value_from (16 * acc + 4) d
  | Hexadecimal.D5 d => uint_value_from (16 * acc + 5) d
  | Hexadecimal.D6 d => uint_value_from (16 * acc + 6) d
  | Hexadecimal.D7 d => uint_value_from (16 * acc + 7) d
  | Hexadecimal.D8 d => uint_value_from (16 * acc + 8) d
  | Hexadecimal.D9 d => uint_value_from (16 * acc + 9) d
  | Hexadecimal.Da d => uint_value_from (16 * acc + 10) d
  | Hexadecimal.Db d => uint_value_from (16 * acc + 11) d
  | Hexadecimal.Dc d => uint_value_from (16 * acc + 12) d
  | Hexadecimal.Dd d => uint_value_from (16 * acc + 13) d
  | Hexadecimal.De d => uint_value_from (16 * acc + 14) d
  | Hexadecimal.Df d => uint_value_from (16 * acc + 15) d
  end%N.

(** The first digit is there and is not [0]. *)
Definition leading_nonzero (d : Hexadecimal.uint) : Prop :=
  match d with
  | Hexadecimal.Nil | Hexadecimal.D0 _ => False
  | _ => True
  end.

(** A state in which the caller holds one options object, with every
    field unset. *)
Definition caller_state : State :=
  set_options_objs [zero_options] sample_state.

(** ** Case-insensitive comparison, as a specification *)

(** The encodings that count as the ASCII character [c] in some case: the
    character itself, the other case of a letter, and for [k] and [s] the
    UTF-8 bytes of the Kelvin sign U+212A and of the long s U+017F, which
    Unicode folds to them. *)
Definition fold_variants (c : Z) : list (list Z) :=
  (if in_range 97 122 c then [[c]; [c - 32]]
   else if in_range 65 90 c then [[c]; [c + 32]]
   else [[c]])
  ++ (if (c =? 107) || (c =? 75) then [[226; 132; 170]] else [])
  ++ (if (c =? 115) || (c =? 83) then [[197; 191]] else []).

(** [s] without the prefix [p], when it starts with [p]. *)
Fixpoint strip_prefix (p s : list Z) : option (list Z) :=
  match p with
  | [] => Some s
  | x :: p' =>
      match s with
      | [] => None
      | y :: s' => if x =? y then strip_prefix p' s' else None
      end
  end.

(** [s] is [t] up to case: character by character, [s] has one of the
    variants of the character of [t]. *)
Fixpoint fold_match (s t : list Z) : bool :=
  match t with
  | [] => match s with [] => true | _ :: _ => false end
  | c :: t' =>
      existsb (fun variant =>
                 match strip_prefix variant s with
                 | Some s' => fold_match s' t'
                 | None => false
                 end)
        (fold_variants c)
  end.

(** [P] holds of the [n] numbers from [lo] on. *)
Fixpoint all_from (n : nat) (lo : Z) (P : Z -> bool) : bool :=
  match n with
  | O => true
  | S k => P lo && all_from k (lo + 1) P
  end.

(** ** The configuration, as the specification words it *)

(** "Level/source-level variables accept exactly one of ERROR, WARN, INFO,
    DEBUG". *)
Definition level_words : list (string * slog.Level) :=
  [("ERROR", slog.LevelError); ("WARN", slog.LevelWarn);
   ("INFO", slog.LevelInfo); ("DEBUG", slog.LevelDebug)].

Definition level_word (v : string) : option slog.Level :=
  snd <$> find (fun p => String.eqb v (fst p)) level_words.

(** [v] is [word] up to the case of its letters. *)
Definition same_up_to_case (v word : string) : bool :=
  fold_match (bytes_of v) (bytes_of word).

(** "Boolean variables accept case-insensitive true/1 -> true, false/0 ->
    false". *)
Definition bool_word (v : string) : option bool :=
  if same_up_to_case v "true" || String.eqb v "1" then Some true
  else if same_up_to_case v "false" || String.eqb v "0" then Some false
  else None.

(** "Unset fields take documented defaults: level=Info, timeLayout=...,
    sourceLevel=Warn", the flags [false]. *)
Definition with_defaults (o : LogHandlerOptions) : LogHandlerOptions :=
  mkOptions
    (Some (default (slog.LevelOf slog.LevelInfo) (Level o)))
    (AddColor o)
    (if decide (TimeLayout o = "") then "2006/01/02 15:04:05" else TimeLayout o)
    (AddPID o)
    (AddGoroutineID o)
    (Some (default (slog.LevelOf slog.LevelWarn) (AddSourceLevel o)))
    (SourceFilePath o).

(** "any other value (including unset) leaves the prior value untouched". *)
Definition override_level (prior : option slog.Leveler) (v : string) : option slog.Leveler :=
  match level_word v with
  | Some l => Some (slog.LevelOf l)
  | None => prior
  end.

Definition override_bool (prior : bool) (v : string) : bool :=
  default prior (bool_word v).

(** "any non-empty string replaces the prior value verbatim". *)
Definition override_layout (prior v : string) : string :=
  if decide (v = "") then prior else v.

(** Defaults first, then the environment. *)
Definition resolved_options (w : World) (o : LogHandlerOptions) : LogHandlerOptions :=
  let d := with_defaults o in
  mkOptions
    (override_level (Level d) (Getenv w "GO_NSLOG_LEVEL"))
    (override_bool (AddColor d) (Getenv w "GO_NSLOG_ADD_COLOR"))
    (override_layout (TimeLayout d) (Getenv w "GO_NSLOG_TIME_LAYOUT"))
    (override_bool (AddPID d) (Getenv w "GO_NSLOG_ADD_PID"))
    (override_bool (AddGoroutineID d) (Getenv w "GO_NSLOG_ADD_GOROUTINEID"))
    (override_level (AddSourceLevel d) (Getenv w "GO_NSLOG_ADD_SOURCE_LEVEL"))
    (override_bool (SourceFilePath d) (Getenv w "GO_NSLOG_SOURCE_FILE_PATH")).

(** A process whose environment sets some of the variables, one of them
    to a value that is not accepted. *)
Definition configured_world : World :=
  sample_world
    (<["GO_NSLOG_LEVEL" := "DEBUG"]>
       (<["GO_NSLOG_ADD_COLOR" := "True"]>
          (<["GO_NSLOG_ADD_PID" := "yes"]>
             (<["GO_NSLOG_ADD_SOURCE_LEVEL" := "debug"]> ∅)))) 0.

(** ** When [Handle] gets to its end *)

(** A space follows the goroutine ID in the first 64 bytes of the stack
    text, as it does in what [runtime.Stack] writes. *)
Definition stack_has_id (w : World) : bool :=
  match IndexByte (TrimPrefix (substring 0 64 (Stack w)) "goroutine ") " " with
  | Some _ => true
  | None => false
  end.

(** [Handle] does not panic: [options.AddSourceLevel] is not nil, which
    holds of every handler that [NewLogHandler] builds, and the stack
    text is as expected when the goroutine ID is asked for. *)
Definition Handle_runs (w : World) (h : LogHandler) : bool :=
  match AddSourceLevel (options h) with
  | Some _ => true
  | None => false
  end
  && (if AddGoroutineID (options h) then stack_has_id w else true).

(** ** The logger that [NewLogger] returns *)

(** A [*slog.Logger] is its handler; [Logger_log] below is the method of
    [log/slog] that the tests of the package go through. *)
Record Logger : Type := mkLogger { Handler : LogHandler }.

(** [NewLogger(writer, options)]: [slog.New] of a new handler. *)
Definition NewLogger (w : World) (st : State) (writer_ : nat) (options_ : option nat)
  : State * Logger :=
  let '(st', handler) := NewLogHandler w st writer_ options_ in
  (st', mkLogger handler).

(** [Logger.log], behind [Debug], [Info], [Warn] and [Error]: nothing
    happens unless the handler says that the level is enabled; otherwise
    a record with the time [now] and the caller's [pc] goes to [Handle],
    whose error is dropped.  [attrs_] are the attributes that the
    arguments of the call make up.  [None] when the handler panics. *)
Definition Logger_log (w : World) (st : State) (l : Logger) (now pc : Z)
    (level : slog.Level) (msg : string) (attrs_ : list slog.Attr) : option State :=
  enabled ← Enabled st (Handler l) level;
  if (enabled : bool) then
    '(st', _) ← Handle w st (Handler l) (slog.mkRecord now msg level pc attrs_);
    Some st'
  else Some st.

(** ** More words for the properties *)

(** The stack text of goroutine [n], as [runtime.Stack] starts it. *)
Definition stack_text (n : Z) (rest : string) : string :=
  "goroutine " +:+ FormatUint n +:+ " " +:+ rest.

(** The value of decimal digits, most significant first. *)
Fixpoint decimal_value_from (acc : N) (d : Decimal.uint) : N :=
  match d with
  | Decimal.Nil => acc
  | Decimal.D0 d => decimal_value_from (10 * acc) d
  | Decimal.D1 d => decimal_value_from (10 * acc + 1) d
  | Decimal.D2 d => decimal_value_from (10 * acc + 2) d
  | Decimal.D3 d => decimal_value_from (10 * acc + 3) d
  | Decimal.D4 d => decimal_value_from (10 * acc + 4) d
  | Decimal.D5 d => decimal_value_from (10 * acc + 5) d
  | Decimal.D6 d => decimal_value_from (10 * acc + 6) d
  | Decimal.D7 d => decimal_value_from (10 * acc + 7) d
  | Decimal.D8 d => decimal_value_from (10 * acc + 8) d
  | Decimal.D9 d => decimal_value_from (10 * acc + 9) d
  end%N.

(** The first decimal digit is there and is not [0]. *)
Definition leading_nonzero_dec (d : Decimal.uint) : Prop :=
  match d with
  | Decimal.Nil | Decimal.D0 _ => False
  | _ => True
  end.

(** The state with one more thing written to a writer. *)
Definition wrote (wr : nat) (p : string) (st : State) : State :=
  set_writers (<[wr := mkWriter (written (writers st wr) +:+ p) None]> (writers st)) st.

(** * Properties *)

(** ** Strings *)

Lemma append_nil_r (s : string) : s +:+ "" = s.
Proof. induction s; simpl; congruence. Qed.

Lemma append_assoc (s1 s2 s3 : string) : (s1 +:+ s2) +:+ s3 = s1 +:+ (s2 +:+ s3).
Proof. induction s1; simpl; congruence. Qed.

Lemma append_length (s1 s2 : string) :
  String.length (s1 +:+ s2) = (String.length s1 + String.length s2)%nat.
Proof. induction s1; simpl; congruence. Qed.

Lemma eqb_empty (s : string) : String.eqb s "" = true <-> s = "".
Proof. apply String.eqb_eq. Qed.

Lemma append_empty (s1 s2 : string) : s1 +:+ s2 = "" <-> s1 = "" /\ s2 = "".
Proof.
  split.
  - destruct s1; simpl; [auto | discriminate].
  - by intros [-> ->].
Qed.

(** ** Slices *)

Section SliceFacts.
Context {A : Type}.
Variable zero : A.
Variable grow : nat -> nat -> nat.
Implicit Types (mem : list (list A)) (s : Slice) (xs : list A).

Lemma view_length mem s : slice_wf mem s -> length (view mem s) = len s.
Proof.
  unfold slice_wf, view. intros H. rewrite length_take. lia.
Qed.

Lemma view_Clip mem s : view mem (Clip s) = view mem s.
Proof. reflexivity. Qed.

(** Memory that only grows shows every well-formed slice as before. *)
Lemma view_extend mem mem' s :
  (forall i arr, mem !! i = Some arr -> mem' !! i = Some arr) ->
  slice_wf mem s ->
  view mem' s = view mem s /\ slice_wf mem' s.
Proof.
  unfold slice_wf, view. intros Hext Hwf.
  destruct (mem !! ptr s) as [arr|] eqn:E.
  - rewrite (Hext _ _ E). auto.
  - simpl in Hwf. assert (len s = 0%nat) as -> by lia.
    split; [by rewrite !take_0 | lia].
Qed.

(** After [Clip], [append] never writes into an array that exists: with
    something to add it allocates, with nothing to add it changes
    nothing. *)
Lemma append_Clip mem s xs mem' s' :
  slice_wf mem s ->
  append zero grow mem (Clip s) xs = (mem', s') ->
  view mem' s' = view mem s ++ xs
  /\ slice_wf mem' s'
  /\ (forall i arr, mem !! i = Some arr -> mem' !! i = Some arr).
Proof.
  intros Hwf. unfold append. simpl.
  destruct (len s + length xs <=? len s)%nat eqn:E.
  - apply Nat.leb_le in E.
    assert (length xs = 0%nat) as Hx by lia.
    destruct xs; [|discriminate]. simpl.
    rewrite Nat.add_0_r, take_drop.
    intros [= <- <-].
    assert (<[ptr s := default [] (mem !! ptr s)]> mem = mem) as ->.
    { apply list_insert_id'. intros Hlt.
      destruct (lookup_lt_is_Some_2 _ _ Hlt) as [arr ->]. reflexivity. }
    rewrite app_nil_r. unfold view, slice_wf in *. simpl. auto.
  - apply Nat.leb_gt in E. intros [= <- <-].
    split; [|split].
    + unfold view at 1. simpl.
      rewrite list_lookup_middle by reflexivity. simpl.
      rewrite app_assoc. apply take_app_length'.
      rewrite length_app, view_length by done. reflexivity.
    + unfold slice_wf. simpl.
      rewrite list_lookup_middle by reflexivity. simpl.
      rewrite !length_app, view_length by done. simpl. lia.
    + intros i arr Hi. rewrite lookup_app_l; [done|].
      by eapply lookup_lt_Some.
Qed.
End SliceFacts.

(** ** The scope accumulator *)

Lemma mem_extends_refl {A : Type} (mem : list (list A)) : mem_extends mem mem.
Proof. by intros i arr. Qed.

Lemma state_extends_refl st : state_extends st st.
Proof. repeat split; apply mem_extends_refl. Qed.

Lemma state_extends_trans st1 st2 st3 :
  state_extends st1 st2 -> state_extends st2 st3 -> state_extends st1 st3.
Proof.
  intros (Ha & Hs & ? & ? & ? & ? & ?) (Ha' & Hs' & ? & ? & ? & ? & ?).
  repeat split; try congruence.
  - intros i arr Hi. by apply Ha', Ha.
  - intros i arr Hi. by apply Hs', Hs.
Qed.

(** A handler that exists before a derivation step shows the same two
    sequences after it. *)
Lemma snapshot_stable st st' h :
  state_extends st st' -> handler_wf st h ->
  attributes_of st' h = attributes_of st h
  /\ groupNames_of st' h = groupNames_of st h
  /\ handler_wf st' h.
Proof.
  intros (Ha & Hs & _) [Hwa Hws].
  destruct (view_extend _ _ _ Ha Hwa) as [? ?].
  destruct (view_extend _ _ _ Hs Hws) as [? ?].
  unfold attributes_of, groupNames_of, handler_wf. auto.
Qed.

Lemma WithAttrs_spec w st h xs st' h' :
  handler_wf st h ->
  WithAttrs w st h xs = (st', h') ->
  attributes_of st' h' = attributes_of st h ++ xs
  /\ groupNames_of st' h' = groupNames_of st h
  /\ options h' = options h /\ writer h' = writer h /\ mutex h' = mutex h
  /\ handler_wf st' h'
  /\ state_extends st st'.
Proof.
  intros [Hwa Hws]. unfold WithAttrs.
  destruct (append _ _ _ _ _) as [mem s] eqn:E. intros [= <- <-].
  apply append_Clip in E as (Hv & Hwf & Hext); [|done].
  unfold attributes_of, groupNames_of, handler_wf. simpl.
  repeat split; try done. apply mem_extends_refl.
Qed.

Lemma WithGroup_spec w st h name st' h' :
  handler_wf st h ->
  WithGroup w st h name = (st', h') ->
  attributes_of st' h' = attributes_of st h
  /\ groupNames_of st' h' = groupNames_of st h ++ [name]
  /\ options h' = options h /\ writer h' = writer h /\ mutex h' = mutex h
  /\ handler_wf st' h'
  /\ state_extends st st'.
Proof.
  intros [Hwa Hws]. unfold WithGroup.
  destruct (append _ _ _ _ _) as [mem s] eqn:E. intros [= <- <-].
  apply append_Clip in E as (Hv & Hwf & Hext); [|done].
  unfold attributes_of, groupNames_of, handler_wf. simpl.
  repeat split; try done. apply mem_extends_refl.
Qed.

(** A new handler has two nil slices, whatever the state. *)
Lemma NewLogHandler_spec w st wr p st' h :
  NewLogHandler w st wr p = (st', h) ->
  attributes_of st' h = [] /\ groupNames_of st' h = [] /\ handler_wf st' h
  /\ writer h = wr /\ mutex h = mutexes st.
Proof.
  unfold NewLogHandler. destruct p as [p|]; intros [= <- <-];
    unfold attributes_of, groupNames_of, handler_wf, slice_wf, view; simpl;
    rewrite ?take_0; repeat split; lia.
Qed.

(** Without [Clip] the model does show interference: two appends to one
    slice with spare capacity share the array, and the second overwrites
    what the first stored. *)
Example append_without_Clip_overwrites :
  let mem := [["G1"; ""; ""; ""]] in
  let s := mkSlice 0 1 4 in
  let '(mem1, s1) := append "" (fun _ _ => 0%nat) mem s ["A"] in
  let '(mem2, s2) := append "" (fun _ _ => 0%nat) mem1 s ["B"] in
  view mem1 s1 = ["G1"; "A"] /\ view mem2 s1 = ["G1"; "B"] /\ view mem2 s2 = ["G1"; "B"].
Proof. vm_compute. auto. Qed.

(** C6.  [WithAttrs] and [WithGroup] never mutate the receiver.  Each
    returns a handler whose sequence is the receiver's with the new
    entries appended, the other sequence as it was, and the receiver's
    options, writer and mutex.  Every handler that existed before the call
    (the receiver, and children derived from it earlier) shows the same
    two sequences after it; so when two children are derived from one
    parent, each keeps its own entries and the parent keeps its own. *)
Theorem WithAttrs_WithGroup_do_not_mutate (w : World) (st : State) (h : LogHandler) :
  handler_wf st h ->
  (forall xs st' h', WithAttrs w st h xs = (st', h') ->
     attributes_of st' h' = attributes_of st h ++ xs
     /\ groupNames_of st' h' = groupNames_of st h
     /\ options h' = options h /\ writer h' = writer h /\ mutex h' = mutex h
     /\ forall h0, handler_wf st h0 ->
          attributes_of st' h0 = attributes_of st h0
          /\ groupNames_of st' h0 = groupNames_of st h0)
  /\ (forall name st' h', WithGroup w st h name = (st', h') ->
     attributes_of st' h' = attributes_of st h
     /\ groupNames_of st' h' = groupNames_of st h ++ [name]
     /\ options h' = options h /\ writer h' = writer h /\ mutex h' = mutex h
     /\ forall h0, handler_wf st h0 ->
          attributes_of st' h0 = attributes_of st h0
          /\ groupNames_of st' h0 = groupNames_of st h0)
  /\ (forall xs1 xs2 st1 c1 st2 c2,
        WithAttrs w st h xs1 = (st1, c1) -> WithAttrs w st1 h xs2 = (st2, c2) ->
        attributes_of st2 h = attributes_of st h
        /\ attributes_of st2 c1 = attributes_of st h ++ xs1
        /\ attributes_of st2 c2 = attributes_of st h ++ xs2)
  /\ (forall n1 n2 st1 c1 st2 c2,
        WithGroup w st h n1 = (st1, c1) -> WithGroup w st1 h n2 = (st2, c2) ->
        groupNames_of st2 h = groupNames_of st h
        /\ groupNames_of st2 c1 = groupNames_of st h ++ [n1]
        /\ groupNames_of st2 c2 = groupNames_of st h ++ [n2]).
Proof.
  intros Hwf. repeat apply conj.
  - intros xs st' h' E.
    destruct (WithAttrs_spec _ _ _ _ _ _ Hwf E) as (? & ? & ? & ? & ? & _ & Hext).
    repeat split; try done; by destruct (snapshot_stable _ _ h0 Hext) as (? & ? & _).
  - intros name st' h' E.
    destruct (WithGroup_spec _ _ _ _ _ _ Hwf E) as (? & ? & ? & ? & ? & _ & Hext).
    repeat split; try done; by destruct (snapshot_stable _ _ h0 Hext) as (? & ? & _).
  - intros xs1 xs2 st1 c1 st2 c2 E1 E2.
    destruct (WithAttrs_spec _ _ _ _ _ _ Hwf E1) as (A1 & _ & _ & _ & _ & Hwf1 & Hext1).
    destruct (snapshot_stable _ _ h Hext1 Hwf) as (Ah & _ & Hwfh).
    destruct (WithAttrs_spec _ _ _ _ _ _ Hwfh E2) as (A2 & _ & _ & _ & _ & _ & Hext2).
    destruct (snapshot_stable _ _ h Hext2 Hwfh) as (Ah2 & _ & _).
    destruct (snapshot_stable _ _ c1 Hext2 Hwf1) as (Ac1 & _ & _).
    repeat split; congruence.
  - intros n1 n2 st1 c1 st2 c2 E1 E2.
    destruct (WithGroup_spec _ _ _ _ _ _ Hwf E1) as (_ & G1 & _ & _ & _ & Hwf1 & Hext1).
    destruct (snapshot_stable _ _ h Hext1 Hwf) as (_ & Gh & Hwfh).
    destruct (WithGroup_spec _ _ _ _ _ _ Hwfh E2) as (_ & G2 & _ & _ & _ & _ & Hext2).
    destruct (snapshot_stable _ _ h Hext2 Hwfh) as (_ & Gh2 & _).
    destruct (snapshot_stable _ _ c1 Hext2 Hwf1) as (_ & Gc1 & _).
    repeat split; congruence.
Qed.

Lemma sample_parent_wf : handler_wf (fst sample_parent) (snd sample_parent).
Proof. split; vm_compute; lia. Defined.

Lemma WithAttrs_WithGroup_do_not_mutate_witness :
  handler_wf (fst sample_parent) (snd sample_parent)
  /\ forall n1 n2 st1 c1 st2 c2,
       WithGroup (sample_world ∅ 3) (fst sample_parent) (snd sample_parent) n1 = (st1, c1) ->
       WithGroup (sample_world ∅ 3) st1 (snd sample_parent) n2 = (st2, c2) ->
       groupNames_of st2 (snd sample_parent) = ["G1"]
       /\ groupNames_of st2 c1 = ["G1"; n1]
       /\ groupNames_of st2 c2 = ["G1"; n2].
Proof.
  split; [exact sample_parent_wf|].
  exact (proj2 (proj2 (proj2
    (WithAttrs_WithGroup_do_not_mutate (sample_world ∅ 3) (fst sample_parent)
       (snd sample_parent) sample_parent_wf)))).
Defined.

(** ** The scope prefix *)

Lemma colon_if_nonempty (s : string) :
  (if negb (String.eqb s "") then s +:+ ":" else s)
  = (if String.eqb s "" then "" else s +:+ ":").
Proof. by destruct (String.eqb_spec s "") as [->|]. Qed.

Lemma Handle_with_scope_prefix st h :
  Handle_with st h = scope_prefix st (groupNames_of st h) (attributes_of st h).
Proof.
  unfold Handle_with, scope_prefix, groupNames_of, attributes_of.
  assert ((if (0 <? len (groups h))%nat
           then Join (view (string_arrays st) (groups h)) "." else "")
          = Join (view (string_arrays st) (groups h)) ".") as ->.
  { destruct (0 <? len (groups h))%nat eqn:E; [done|].
    apply Nat.ltb_ge in E. unfold view.
    assert (len (groups h) = 0%nat) as -> by lia. by rewrite take_0. }
  destruct (view (attr_arrays st) (attrs h)) as [|a l]; cbn [map length Nat.ltb Nat.leb].
  - rewrite append_nil_r. apply colon_if_nonempty.
  - apply colon_if_nonempty.
Qed.

Lemma key_value_objects st st' a :
  objects st' = objects st -> key_value st' a = key_value st a.
Proof. unfold key_value. by intros ->. Qed.

Lemma scope_prefix_objects st st' gs xs :
  objects st' = objects st -> scope_prefix st' gs xs = scope_prefix st gs xs.
Proof.
  intros Hobj. unfold scope_prefix.
  assert (map (key_value st') xs = map (key_value st) xs) as ->; [|done].
  apply map_ext. intros a. by apply key_value_objects.
Qed.

(** The fields of a line: three that are always there, five that are
    there on a condition each. *)
Lemma Handle_log_strings_fields time_ pid goroutineID level with_ message attributes source :
  Handle_log_strings time_ pid goroutineID level with_ message attributes source
  = [time_]
    ++ optional (0 <? pid) (Sprintf_0X 4 pid)
    ++ optional (0 <? goroutineID) (Sprintf_0X 8 goroutineID)
    ++ [level]
    ++ optional (negb (String.eqb with_ "")) with_
    ++ [message]
    ++ optional (0 <? length attributes)%nat (Join attributes " ")
    ++ optional (negb (String.eqb source "")) source.
Proof.
  unfold Handle_log_strings, optional.
  destruct (0 <? pid), (0 <? goroutineID), (negb (String.eqb with_ "")),
    (0 <? length attributes)%nat, (negb (String.eqb source ""));
    reflexivity.
Qed.

(** A chain of derivations appends its group names and its attributes,
    each kind in call order. *)
Lemma derive_all_spec w ds : forall sh,
  handler_wf (fst sh) (snd sh) ->
  groupNames_of (fst (derive_all w sh ds)) (snd (derive_all w sh ds))
    = groupNames_of (fst sh) (snd sh) ++ names_of ds
  /\ attributes_of (fst (derive_all w sh ds)) (snd (derive_all w sh ds))
    = attributes_of (fst sh) (snd sh) ++ attributes_in ds
  /\ handler_wf (fst (derive_all w sh ds)) (snd (derive_all w sh ds))
  /\ state_extends (fst sh) (fst (derive_all w sh ds)).
Proof.
  induction ds as [|d ds IH]; intros sh Hwf.
  - simpl. rewrite !app_nil_r. auto using state_extends_refl.
  - change (derive_all w sh (d :: ds)) with (derive_all w (derive w sh d) ds).
    destruct d as [name|xs]; simpl derive.
    + destruct (WithGroup w (fst sh) (snd sh) name) as [st' h'] eqn:E.
      destruct (WithGroup_spec _ _ _ _ _ _ Hwf E) as (Ha & Hg & _ & _ & _ & Hwf' & Hext).
      destruct (IH (st', h') Hwf') as (Hg2 & Ha2 & Hwf2 & Hext2). simpl in *.
      rewrite Hg2, Ha2, Hg, Ha, <- app_assoc.
      eauto using state_extends_trans.
    + destruct (WithAttrs w (fst sh) (snd sh) xs) as [st' h'] eqn:E.
      destruct (WithAttrs_spec _ _ _ _ _ _ Hwf E) as (Ha & Hg & _ & _ & _ & Hwf' & Hext).
      destruct (IH (st', h') Hwf') as (Hg2 & Ha2 & Hwf2 & Hext2). simpl in *.
      rewrite Hg2, Ha2, Hg, Ha, <- app_assoc.
      eauto using state_extends_trans.
Qed.

(** What a derived handler renders as its prefix, from the sequences of
    the base handler and the chain. *)
Lemma rendered_prefix_derive_all w sh ds :
  handler_wf (fst sh) (snd sh) ->
  rendered_prefix (derive_all w sh ds)
  = scope_prefix (fst sh)
      (groupNames_of (fst sh) (snd sh) ++ names_of ds)
      (attributes_of (fst sh) (snd sh) ++ attributes_in ds).
Proof.
  intros Hwf. unfold rendered_prefix. rewrite Handle_with_scope_prefix.
  destruct (derive_all_spec w ds sh Hwf) as (-> & -> & _ & Hext).
  apply scope_prefix_objects. apply Hext.
Qed.

Lemma NewLogHandler_wf w st wr p :
  handler_wf (fst (NewLogHandler w st wr p)) (snd (NewLogHandler w st wr p)).
Proof.
  destruct (NewLogHandler w st wr p) as [st' h] eqn:E.
  by destruct (NewLogHandler_spec _ _ _ _ _ _ E) as (_ & _ & ? & _).
Qed.

Lemma rendered_prefix_from_root w st wr p ds :
  rendered_prefix (derive_all w (NewLogHandler w st wr p) ds)
  = scope_prefix (fst (NewLogHandler w st wr p)) (names_of ds) (attributes_in ds).
Proof.
  rewrite rendered_prefix_derive_all by apply NewLogHandler_wf.
  destruct (NewLogHandler w st wr p) as [st' h] eqn:E. simpl.
  by destruct (NewLogHandler_spec _ _ _ _ _ _ E) as (-> & -> & _).
Qed.

(** C5.  From one base handler, two chains of [WithGroup] and [WithAttrs]
    calls that have the same group names in the same order and the same
    attributes in the same order render the same scope prefix, however
    the two kinds of call are interleaved.  From a new handler,
    [WithGroup("G1").WithGroup("G2").With("pid", 0)] and
    [WithGroup("G1").With("pid", 0).WithGroup("G2")] both render
    [G1.G2[pid=0]:]. *)
Theorem scope_prefix_ignores_interleaving :
  (forall w sh ds1 ds2,
     handler_wf (fst sh) (snd sh) ->
     names_of ds1 = names_of ds2 ->
     attributes_in ds1 = attributes_in ds2 ->
     rendered_prefix (derive_all w sh ds1) = rendered_prefix (derive_all w sh ds2))
  /\ (forall w st wr p,
        let pid0 := slog.mkAttr "pid" (slog.Int64Value 0) in
        rendered_prefix (derive_all w (NewLogHandler w st wr p)
                           [Group "G1"; Group "G2"; Attributes [pid0]])
          = "G1.G2[pid=0]:"
        /\ rendered_prefix (derive_all w (NewLogHandler w st wr p)
                              [Group "G1"; Attributes [pid0]; Group "G2"])
          = "G1.G2[pid=0]:").
Proof.
  split.
  - intros w sh ds1 ds2 Hwf Hn Ha.
    rewrite !rendered_prefix_derive_all by done. by rewrite Hn, Ha.
  - intros w st wr p pid0. rewrite !rendered_prefix_from_root. by split.
Qed.

Lemma scope_prefix_ignores_interleaving_witness :
  let w := sample_world ∅ 3 in
  let a := slog.mkAttr "pid" (slog.StringValue "dead") in
  let b := slog.mkAttr "tid" (slog.StringValue "beaf") in
  rendered_prefix (derive_all w sample_parent
                     [Group "G2"; Attributes [a]; Group "G3"; Attributes [b]])
  = rendered_prefix (derive_all w sample_parent
                       [Attributes [a; b]; Group "G2"; Group "G3"]).
Proof.
  intros w a b.
  apply (proj1 scope_prefix_ignores_interleaving w sample_parent);
    [split; vm_compute; lia | reflexivity | reflexivity].
Defined.

(** C10, as stated, fails for a receiver that already has a group: the
    handler with the group [G1] renders [G1..G:] after [WithGroup("")] and
    [WithGroup("G")], not [.G:]. *)
Lemma WithGroup_empty_name_counterexample :
  let w := sample_world ∅ 3 in
  let '(st, h) := sample_parent in
  let '(st1, h1) := WithGroup w st h "" in
  let '(st2, h2) := WithGroup w st1 h1 "G" in
  groupNames_of st h = ["G1"]
  /\ Handle_with st2 h2 = "G1..G:"
  /\ Handle_with st2 h2 <> ".G:".
Proof. vm_compute. repeat split; discriminate. Qed.

(** C10, amended.  [WithGroup("")] is not a no-op: it appends the empty
    name, and so does a following [WithGroup("G")] append [G]; the scope
    prefix dot-joins the receiver's group names followed by these two.
    For a receiver with no group names and no attributes (any new
    handler) the prefix is [.G:], with a leading dot. *)
Theorem WithGroup_empty_name_is_appended (w : World) (st : State) (h : LogHandler) :
  handler_wf st h ->
  forall st1 h1 st2 h2,
    WithGroup w st h "" = (st1, h1) ->
    WithGroup w st1 h1 "G" = (st2, h2) ->
    groupNames_of st1 h1 = groupNames_of st h ++ [""]
    /\ groupNames_of st2 h2 = groupNames_of st h ++ [""; "G"]
    /\ Handle_with st2 h2
       = scope_prefix st (groupNames_of st h ++ [""; "G"]) (attributes_of st h)
    /\ (groupNames_of st h = [] -> attributes_of st h = [] ->
        Handle_with st2 h2 = ".G:").
Proof.
  intros Hwf st1 h1 st2 h2 E1 E2.
  destruct (WithGroup_spec _ _ _ _ _ _ Hwf E1) as (A1 & G1 & _ & _ & _ & Hwf1 & Hext1).
  destruct (WithGroup_spec _ _ _ _ _ _ Hwf1 E2) as (A2 & G2 & _ & _ & _ & _ & Hext2).
  assert (Handle_with st2 h2
          = scope_prefix st (groupNames_of st h ++ [""; "G"]) (attributes_of st h)) as Hp.
  { rewrite Handle_with_scope_prefix, G2, G1, A2, A1, <- app_assoc.
    apply scope_prefix_objects.
    destruct Hext1 as (_ & _ & _ & _ & _ & O1 & _).
    destruct Hext2 as (_ & _ & _ & _ & _ & O2 & _). congruence. }
  repeat split; try done.
  - by rewrite G2, G1, <- app_assoc.
  - intros Hg Ha. by rewrite Hp, Hg, Ha.
Qed.

Lemma WithGroup_empty_name_is_appended_witness :
  let w := sample_world ∅ 3 in
  let '(st, h) := sample_root in
  handler_wf st h
  /\ Handle_with (fst (WithGroup w (fst (WithGroup w st h "")) (snd (WithGroup w st h "")) "G"))
       (snd (WithGroup w (fst (WithGroup w st h "")) (snd (WithGroup w st h "")) "G"))
     = ".G:".
Proof.
  assert (handler_wf (fst sample_root) (snd sample_root)) as Hwf
    by (split; vm_compute; lia).
  split; [exact Hwf|].
  exact (proj2 (proj2 (proj2
    (WithGroup_empty_name_is_appended (sample_world ∅ 3) (fst sample_root) (snd sample_root)
       Hwf _ _ _ _ eq_refl eq_refl))) eq_refl eq_refl).
Defined.

(** ** The line *)

Lemma Join_cons2 (x y : string) (l : list string) (sep : string) :
  Join (x :: y :: l) sep = x +:+ sep +:+ Join (y :: l) sep.
Proof. reflexivity. Qed.

Lemma Join_app (l1 l2 : list string) (sep : string) :
  l1 <> [] -> l2 <> [] ->
  Join (l1 ++ l2) sep = Join l1 sep +:+ sep +:+ Join l2 sep.
Proof.
  intros H1 H2. induction l1 as [|x l1 IH]; [done|].
  destruct l1 as [|y l1].
  - destruct l2 as [|z l2]; [done|]. reflexivity.
  - change ((x :: y :: l1) ++ l2) with (x :: y :: (l1 ++ l2)).
    rewrite !Join_cons2. change (y :: l1 ++ l2) with ((y :: l1) ++ l2).
    rewrite IH by done. by rewrite !append_assoc.
Qed.

Lemma Join_nonempty (x : string) (l : list string) (sep : string) :
  x <> "" -> Join (x :: l) sep <> "".
Proof.
  intros Hx. destruct l; [done|]. rewrite Join_cons2.
  intros [? _]%append_empty. done.
Qed.

Lemma zeros_length (n : nat) : String.length (zeros n) = n.
Proof. induction n; simpl; congruence. Qed.

(** The width of [%0wX] is a minimum. *)
Lemma Sprintf_0X_length (wid : nat) (v : Z) :
  0 <= v -> (wid <= String.length (Sprintf_0X wid v))%nat.
Proof.
  intros Hv. unfold Sprintf_0X.
  assert ((v <? 0) = false) as -> by lia.
  rewrite append_length, zeros_length. lia.
Qed.

Lemma Sprintf_0X_nonempty (wid : nat) (v : Z) :
  0 <= v -> (0 < wid)%nat -> Sprintf_0X wid v <> "".
Proof.
  intros Hv Hw E. pose proof (Sprintf_0X_length wid v Hv) as H.
  rewrite E in H. simpl in H. lia.
Qed.

Lemma key_value_nonempty st a : key_value st a <> "".
Proof.
  unfold key_value. intros [_ [? _]%append_empty]%append_empty. done.
Qed.

Lemma Handle_log_bytes_inv w st h r line :
  Handle_log_bytes w st h r = Some line ->
  exists goroutineID source,
    Handle_goroutineID w h = Some goroutineID
    /\ Handle_source w st h r = Some source
    /\ line = Join (Handle_log_strings
                      (Time_Format w (slog.Time r) (TimeLayout (options h)))
                      (Handle_pid w h) goroutineID (Handle_level w h r)
                      (Handle_with st h) (slog.Message r)
                      (map (key_value st) (slog.Attrs r)) source) " " +:+ LF.
Proof.
  unfold Handle_log_bytes. intros H.
  destruct (Handle_goroutineID w h) as [g|]; [|done].
  destruct (Handle_source w st h r) as [s|]; [|done].
  simpl in H. injection H as <-. eauto.
Qed.

(** [Handle] gets to its end exactly when [Handle_runs] says so, and
    then renders a line. *)
Lemma Handle_runs_spec w st h r :
  Handle_runs w h = true ->
  exists goroutineID source,
    Handle_goroutineID w h = Some goroutineID
    /\ Handle_source w st h r = Some source
    /\ Handle_log_bytes w st h r
       = Some (Join (Handle_log_strings
                       (Time_Format w (slog.Time r) (TimeLayout (options h)))
                       (Handle_pid w h) goroutineID (Handle_level w h r)
                       (Handle_with st h) (slog.Message r)
                       (map (key_value st) (slog.Attrs r)) source) " " +:+ LF).
Proof.
  unfold Handle_runs, Handle_log_bytes, Handle_goroutineID, Handle_source, stack_has_id.
  intros [Hs Hg]%andb_prop.
  destruct (AddSourceLevel (options h)) as [[l|p]|]; [| |done];
    (destruct (AddGoroutineID (options h));
     [destruct (IndexByte _ " ") as [i|]; [|done]|]; simpl; eauto).
Qed.

Lemma Handle_runs_false w st h r :
  Handle_runs w h = false -> Handle_log_bytes w st h r = None.
Proof.
  unfold Handle_runs, Handle_log_bytes, Handle_goroutineID, Handle_source, stack_has_id.
  destruct (AddSourceLevel (options h)) as [[l|p]|];
    (destruct (AddGoroutineID (options h));
     [destruct (IndexByte _ " ") as [i|]|]; simpl; done).
Qed.

(** *** The scope prefix in the line *)

Lemma fold_left_joined (sep : string) (rest : list string) : forall a x,
  fold_left (fun joined y => joined +:+ sep +:+ y) rest (a +:+ x)
  = a +:+ fold_left (fun joined y => joined +:+ sep +:+ y) rest x.
Proof.
  induction rest as [|y rest IH]; intros a x; [done|].
  cbn [fold_left]. by rewrite append_assoc, IH.
Qed.

Lemma Join_joined_by (xs : list string) (sep : string) :
  Join xs sep = joined_by sep xs.
Proof.
  induction xs as [|x [|y rest] IH]; [done|done|].
  rewrite Join_cons2, IH. unfold joined_by. cbn [fold_left].
  by rewrite !fold_left_joined.
Qed.

(** The two wordings of the scope prefix agree. *)
Lemma scope_prefix_as_text st gs xs :
  scope_prefix st gs xs = scope_prefix_text (objects st) gs xs.
Proof.
  unfold scope_prefix, scope_prefix_text. rewrite !Join_joined_by.
  change (map (key_value st) xs) with (map (pair_text (objects st)) xs).
  set (g := joined_by "." gs).
  set (b := match xs with
            | [] => ""
            | _ :: _ => "[" +:+ joined_by " " (map (pair_text (objects st)) xs) +:+ "]"
            end).
  destruct (String.eqb_spec (g +:+ b) "") as [E|E].
  - apply append_empty in E as [-> ->]. done.
  - destruct (String.eqb_spec g "") as [Eg|Eg]; [|by rewrite append_assoc].
    destruct (String.eqb_spec b "") as [Eb|Eb]; [|by rewrite append_assoc].
    by rewrite Eg, Eb in E.
Qed.

(** The second wording on examples: names only, attributes only, both,
    and the one empty name, which renders nothing. *)
Example scope_prefix_text_examples :
  let pid := slog.mkAttr "pid" (slog.Int64Value 0) in
  let k := slog.mkAttr "k" (slog.StringValue "v") in
  scope_prefix_text (fun _ => "") [] [] = ""
  /\ scope_prefix_text (fun _ => "") ["G1"] [] = "G1:"
  /\ scope_prefix_text (fun _ => "") ["G1"; "G2"; "G3"] [] = "G1.G2.G3:"
  /\ scope_prefix_text (fun _ => "") [] [k] = "[k=v]:"
  /\ scope_prefix_text (fun _ => "") ["G1"; "G2"] [pid; k] = "G1.G2[pid=0 k=v]:"
  /\ scope_prefix_text (fun _ => "") [""] [] = "".
Proof. vm_compute. repeat split. Qed.

(** C4.  The scope prefix that [Handle] renders is the group names with a
    dot between each two, then at once, if there are attributes, an
    opening bracket, the [key=value] pairs with a space between each two,
    and a closing bracket, then a colon if either part is not empty.
    The prefix, when it is not empty, is a field of the line, between the
    level tag and the message.  With no group names and no attributes the
    prefix is empty and the line has no field for it, nor a colon: the
    message follows the level tag. *)
Theorem Handle_with_is_scope_prefix (w : World) (st : State) (h : LogHandler)
    (r : slog.Record_) :
  let prefix := scope_prefix_text (objects st) (groupNames_of st h) (attributes_of st h) in
  Handle_with st h = prefix
  /\ (groupNames_of st h = [] -> attributes_of st h = [] -> prefix = "")
  /\ (Handle_runs w h = true ->
      exists goroutineID source,
        Handle_goroutineID w h = Some goroutineID
        /\ Handle_source w st h r = Some source
        /\ let before :=
             [Time_Format w (slog.Time r) (TimeLayout (options h))]
             ++ optional (0 <? Handle_pid w h) (Sprintf_0X 4 (Handle_pid w h))
             ++ optional (0 <? goroutineID) (Sprintf_0X 8 goroutineID)
             ++ [Handle_level w h r] in
           let after :=
             [slog.Message r]
             ++ optional (0 <? length (slog.Attrs r))%nat
                  (joined_by " " (map (pair_text (objects st)) (slog.Attrs r)))
             ++ optional (negb (String.eqb source "")) source in
           Handle_log_bytes w st h r
           = Some (joined_by " "
                     (before ++ optional (negb (String.eqb prefix "")) prefix ++ after)
                   +:+ LF)
           /\ (groupNames_of st h = [] -> attributes_of st h = [] ->
               Handle_log_bytes w st h r
               = Some (joined_by " " (before ++ after) +:+ LF))).
Proof.
  intros prefix.
  assert (Handle_with st h = prefix) as Hp.
  { subst prefix. by rewrite Handle_with_scope_prefix, scope_prefix_as_text. }
  assert (groupNames_of st h = [] -> attributes_of st h = [] -> prefix = "") as He.
  { subst prefix. by intros -> ->. }
  split; [done|]. split; [done|].
  intros H. destruct (Handle_runs_spec w st h r H) as (g & s & Hg & Hs & Hb).
  exists g, s. split; [done|]. split; [done|]. cbv zeta.
  rewrite Hb, Handle_log_strings_fields, length_map, !Join_joined_by, Hp.
  change (map (key_value st) (slog.Attrs r))
    with (map (pair_text (objects st)) (slog.Attrs r)).
  split.
  - by rewrite <- !app_assoc.
  - intros Hgs Has. rewrite (He Hgs Has). cbn [String.eqb negb optional app].
    by rewrite <- !app_assoc.
Qed.

Lemma Handle_with_is_scope_prefix_witness :
  let w := sample_world ∅ 3 in
  let sh :=
    derive_all w sample_root
      [Group "G1"; Attributes [slog.mkAttr "pid" (slog.Int64Value 0)]; Group "G2";
       Attributes [slog.mkAttr "k" (slog.StringValue "v")]] in
  let r := sample_record slog.LevelInfo "message" [] in
  (Handle_with (fst sh) (snd sh) = "G1.G2[pid=0 k=v]:"
   /\ Handle_log_bytes w (fst sh) (snd sh) r
      = Some ("2006/01/02 15:04:05 INFO. G1.G2[pid=0 k=v]: message" +:+ LF))
  /\ (Handle_with (fst sample_root) (snd sample_root) = ""
      /\ Handle_log_bytes w (fst sample_root) (snd sample_root) r
         = Some ("2006/01/02 15:04:05 INFO. message" +:+ LF)).
Proof.
  intros w sh r. split.
  - destruct (Handle_with_is_scope_prefix w (fst sh) (snd sh) r) as (Hp & _ & Hl).
    destruct (Hl eq_refl) as (g & s & Hg & Hs & Hb & _).
    vm_compute in Hg, Hs. injection Hg as <-. injection Hs as <-.
    split; [exact Hp | exact Hb].
  - destruct (Handle_with_is_scope_prefix w (fst sample_root) (snd sample_root) r)
      as (Hp & He & Hl).
    destruct (Hl eq_refl) as (g & s & Hg & Hs & _ & Hb).
    vm_compute in Hg, Hs. injection Hg as <-. injection Hs as <-.
    split; [rewrite Hp; exact (He eq_refl eq_refl) | exact (Hb eq_refl eq_refl)].
Defined.

(** C3, as stated, fails for an event with an empty message and an
    attribute: the line has two spaces between the level tag and the
    attribute, where a line that omits the empty field has one. *)
Lemma empty_message_counterexample :
  let w := sample_world ∅ 0 in
  let r := sample_record slog.LevelInfo "" [slog.mkAttr "k" (slog.StringValue "v")] in
  Handle_log_bytes w (fst sample_root) (snd sample_root) r
    = Some ("2006/01/02 15:04:05 INFO.  k=v" +:+ LF)
  /\ line_omitting_empty ["2006/01/02 15:04:05"; "INFO."; slog.Message r; "k=v"]
    = "2006/01/02 15:04:05 INFO. k=v" +:+ LF
  /\ Handle_log_bytes w (fst sample_root) (snd sample_root) r
    <> Some (line_omitting_empty ["2006/01/02 15:04:05"; "INFO."; slog.Message r; "k=v"]).
Proof. vm_compute. repeat split; discriminate. Qed.

(** An empty field keeps its separators. *)
Lemma Join_empty_field (before after : list string) :
  before <> [] ->
  Join (before ++ [""] ++ after) " "
  = Join before " " +:+ " "
    +:+ match after with
        | [] => ""
        | _ :: _ => " " +:+ Join after " "
        end.
Proof.
  intros Hb. rewrite Join_app by done. destruct after as [|f after]; [done|].
  change ([""] ++ f :: after) with ("" :: f :: after). by rewrite Join_cons2.
Qed.

(** C3, amended.  Whenever [Handle] runs (it does for every handler that
    [NewLogHandler] builds), the timestamp, the level tag and the message
    are always fields of the line; the PID, the goroutine ID, the scope
    prefix, the event attributes and the source are fields only when they
    are not empty.  The fields are joined with single spaces and one line
    terminator follows.  An empty message is still a field: the line has
    the space before it and, when a field follows, the space after it. *)
Theorem Handle_line_keeps_message_field (w : World) (st : State) (h : LogHandler)
    (r : slog.Record_) :
  Handle_runs w h = true ->
  exists goroutineID source,
    Handle_goroutineID w h = Some goroutineID
    /\ Handle_source w st h r = Some source
    /\ let pid_field := optional (0 <? Handle_pid w h) (Sprintf_0X 4 (Handle_pid w h)) in
       let id_field := optional (0 <? goroutineID) (Sprintf_0X 8 goroutineID) in
       let with_field := optional (negb (String.eqb (Handle_with st h) "")) (Handle_with st h) in
       let before :=
         [Time_Format w (slog.Time r) (TimeLayout (options h))]
         ++ pid_field ++ id_field ++ [Handle_level w h r] ++ with_field in
       let after :=
         optional (0 <? length (slog.Attrs r))%nat
           (Join (map (key_value st) (slog.Attrs r)) " ")
         ++ optional (negb (String.eqb source "")) source in
       Handle_log_bytes w st h r
         = Some (Join (before ++ [slog.Message r] ++ after) " " +:+ LF)
       /\ Forall (fun f => f <> "") (pid_field ++ id_field ++ with_field ++ after)
       /\ (slog.Message r = "" ->
           Handle_log_bytes w st h r
           = Some ((Join before " " +:+ " "
                    +:+ match after with
                        | [] => ""
                        | _ :: _ => " " +:+ Join after " "
                        end) +:+ LF)).
Proof.
  intros H. destruct (Handle_runs_spec w st h r H) as (g & s & Hg & Hs & ->).
  exists g, s. split; [done|]. split; [done|]. cbv zeta.
  rewrite Handle_log_strings_fields, length_map.
  split; [|split].
  - simpl. by rewrite <- !app_assoc.
  - unfold optional. repeat apply Forall_app_2.
    + destruct (0 <? Handle_pid w h) eqn:E; constructor; [|done].
      apply Sprintf_0X_nonempty; lia.
    + destruct (0 <? g) eqn:E; constructor; [|done].
      apply Sprintf_0X_nonempty; lia.
    + destruct (String.eqb_spec (Handle_with st h) ""); simpl; by constructor.
    + destruct (slog.Attrs r) as [|a l]; [constructor|].
      change (Forall (fun f => f <> "")
                [Join (key_value st a :: map (key_value st) l) " "]).
      constructor; [|done]. apply Join_nonempty, key_value_nonempty.
    + destruct (String.eqb_spec s ""); simpl; by constructor.
  - intros ->.
    rewrite <- Join_empty_field by done.
    simpl. by rewrite <- !app_assoc.
Qed.

Lemma Handle_line_keeps_message_field_witness :
  let w := sample_world ∅ 0 in
  let r := sample_record slog.LevelInfo "" [] in
  Handle_runs w (snd sample_root) = true
  /\ Handle_log_bytes w (fst sample_root) (snd sample_root) r
     = Some ("2006/01/02 15:04:05 INFO. " +:+ LF).
Proof.
  intros w r. split; [reflexivity|].
  destruct (Handle_line_keeps_message_field w (fst sample_root) (snd sample_root) r
              eq_refl)
    as (g & s & Hg & Hs & _ & _ & Hm).
  rewrite (Hm eq_refl).
  vm_compute in Hg, Hs. injection Hg as <-. injection Hs as <-. reflexivity.
Defined.

(** ** Level filtering *)

(** C1, as stated, fails: a handler with [minLevel = Info] that is handed
    a [Debug] event, for which [Enabled] says no, renders it and writes it
    to the sink. *)
Lemma Handle_below_minLevel_counterexample :
  let w := sample_world ∅ 0 in
  let r := sample_record slog.LevelDebug "message" [] in
  Level (options (snd sample_root)) = Some (slog.LevelOf slog.LevelInfo)
  /\ Enabled (fst sample_root) (snd sample_root) (slog.Level_ r) = Some false
  /\ written (writers (fst sample_root) (writer (snd sample_root))) = ""
  /\ Handle_output w (fst sample_root) (snd sample_root) r
     = Some ("2006/01/02 15:04:05 DEBUG message" +:+ LF, None).
Proof. vm_compute. repeat split. Qed.

Lemma Handle_log_bytes_with_Level w st h r l :
  Handle_log_bytes w st (with_Level l h) r = Handle_log_bytes w st h r.
Proof. reflexivity. Qed.

(** C1, amended.  [minLevel] is honoured by [Enabled] alone, which says
    whether the level is at least [minLevel].  [Handle] does not look at
    [minLevel]: what it does is the same for every [minLevel], and
    whenever it runs it renders the line of the event and hands it to the
    sink, whatever the level of the event. *)
Theorem Handle_ignores_minLevel (w : World) (st : State) (h : LogHandler)
    (r : slog.Record_) :
  (forall min_level,
     Leveler_Level st (Level (options h)) = Some min_level ->
     Enabled st h (slog.Level_ r) = Some (min_level <=? slog.Level_ r))
  /\ (forall l, Handle w st (with_Level l h) r = Handle w st h r)
  /\ (Handle_runs w h = true ->
      exists line,
        Handle_log_bytes w st h r = Some line
        /\ Handle_output w st h r
           = Some (match failure (writers st (writer h)) with
                   | None => (written (writers st (writer h)) +:+ line, None)
                   | Some e => (written (writers st (writer h)), Some e)
                   end)).
Proof.
  repeat split.
  - intros min_level H. unfold Enabled. by rewrite H.
  - intros H. destruct (Handle_runs_spec w st h r H) as (g & s & _ & _ & Hl).
    eexists. split; [exact Hl|].
    unfold Handle_output, Handle, Write. rewrite Hl. simpl.
    destruct (failure (writers st (writer h))); simpl; by rewrite fn_lookup_insert.
Qed.

Lemma Handle_ignores_minLevel_witness :
  let w := sample_world ∅ 0 in
  let r := sample_record slog.LevelDebug "message" [] in
  Enabled (fst sample_root) (snd sample_root) (slog.Level_ r) = Some false
  /\ Handle_runs w (snd sample_root) = true
  /\ exists line, Handle_log_bytes w (fst sample_root) (snd sample_root) r = Some line.
Proof.
  intros w r.
  pose proof (Handle_ignores_minLevel w (fst sample_root) (snd sample_root) r)
    as (HE & _ & HH).
  split; [exact (HE 0 eq_refl)|]. split; [reflexivity|].
  destruct (HH eq_refl) as (line & Hl & _). exists line. exact Hl.
Defined.

(** ** When attribute values are rendered *)

(** C2, as stated, fails for an attribute whose value holds another
    object: the handler stores the value itself, and two renderings of
    the same event by the same handler differ when the object has
    changed in between. *)
Lemma WithAttrs_rendering_counterexample :
  let w := sample_world ∅ 0 in
  let st0 := set_objects (fun _ => "old") (fst sample_root) in
  let '(st1, h1) :=
    WithAttrs w st0 (snd sample_root) [slog.mkAttr "k" (slog.AnyValue (Some 0%nat))] in
  let st2 := set_objects (fun _ => "new") st1 in
  let r := sample_record slog.LevelInfo "message" [] in
  attributes_of st1 h1 = [slog.mkAttr "k" (slog.AnyValue (Some 0%nat))]
  /\ Handle_log_bytes w st1 h1 r
     = Some ("2006/01/02 15:04:05 INFO. [k=old]: message" +:+ LF)
  /\ Handle_log_bytes w st2 h1 r
     = Some ("2006/01/02 15:04:05 INFO. [k=new]: message" +:+ LF).
Proof. vm_compute. repeat split. Qed.

Lemma key_value_fixed st objs a :
  fixed_string (slog.Value_ a) = true ->
  key_value (set_objects objs st) a = key_value st a.
Proof.
  unfold key_value. destruct a as [k [s|n|n|b|[p|]]]; simpl; done.
Qed.

Lemma scope_prefix_fixed st objs gs xs :
  Forall (fun a => fixed_string (slog.Value_ a) = true) xs ->
  scope_prefix (set_objects objs st) gs xs = scope_prefix st gs xs.
Proof.
  intros Hf. unfold scope_prefix.
  assert (map (key_value (set_objects objs st)) xs = map (key_value st) xs) as ->; [|done].
  induction Hf as [|a xs Ha _ IH]; simpl; [done|].
  by rewrite IH, key_value_fixed.
Qed.

(** C2, amended.  [WithAttrs] stores the attributes as they are given,
    keys and values, with no value rendered.  [Handle] renders the stored
    values each time a line is rendered, from the objects as they are
    then.  When every stored value has a fixed string form (a string, an
    integer, a boolean, nil) the scope prefix is the same at any time,
    so the same as if the values had been rendered by [WithAttrs]. *)
Theorem WithAttrs_stores_values (w : World) (st : State) (h : LogHandler)
    (xs : list slog.Attr) (st' : State) (h' : LogHandler) :
  handler_wf st h ->
  WithAttrs w st h xs = (st', h') ->
  attributes_of st' h' = attributes_of st h ++ xs
  /\ (forall objs,
        Handle_with (set_objects objs st') h'
        = scope_prefix (set_objects objs st') (groupNames_of st h)
            (attributes_of st h ++ xs))
  /\ (Forall (fun a => fixed_string (slog.Value_ a) = true) (attributes_of st h ++ xs) ->
      forall objs, Handle_with (set_objects objs st') h' = Handle_with st' h').
Proof.
  intros Hwf E.
  destruct (WithAttrs_spec _ _ _ _ _ _ Hwf E) as (Ha & Hg & _ & _ & _ & _ & _).
  assert (forall objs,
            Handle_with (set_objects objs st') h'
            = scope_prefix (set_objects objs st') (groupNames_of st h)
                (attributes_of st h ++ xs)) as Hp.
  { intros objs. rewrite Handle_with_scope_prefix.
    change (groupNames_of (set_objects objs st') h') with (groupNames_of st' h').
    change (attributes_of (set_objects objs st') h') with (attributes_of st' h').
    by rewrite Ha, Hg. }
  repeat split; try done.
  intros Hf objs. rewrite Hp, scope_prefix_fixed by done.
  by rewrite Handle_with_scope_prefix, Ha, Hg.
Qed.

Lemma WithAttrs_stores_values_witness :
  let w := sample_world ∅ 0 in
  let xs := [slog.mkAttr "pid" (slog.Int64Value 0)] in
  let sh := WithAttrs w (fst sample_parent) (snd sample_parent) xs in
  attributes_of (fst sh) (snd sh) = xs
  /\ forall objs, Handle_with (set_objects objs (fst sh)) (snd sh) = "G1[pid=0]:".
Proof.
  intros w xs sh.
  pose proof (WithAttrs_stores_values w (fst sample_parent) (snd sample_parent) xs
                (fst sh) (snd sh) sample_parent_wf eq_refl) as (Ha & _ & Hf).
  split; [exact Ha|].
  apply Hf. vm_compute. repeat constructor.
Defined.

(** ** The PID and goroutine ID fields *)

(** C8, as stated, fails for a PID above [0xFFFF]: the field has five
    digits; and for a goroutine ID above [0xFFFFFFFF]: nine digits. *)
Lemma PID_field_width_counterexample :
  let '(st, h) := NewLogHandler busy_world sample_state 0 None in
  AddPID (options h) = true
  /\ Getpid busy_world = 70000
  /\ Handle_goroutineID busy_world h = Some 4294967296
  /\ Handle_log_bytes busy_world st h (sample_record slog.LevelInfo "message" [])
     = Some ("2006/01/02 15:04:05 11170 100000000 INFO. message" +:+ LF)
  /\ String.length (Sprintf_0X 4 (Getpid busy_world)) = 5%nat
  /\ String.length (Sprintf_0X 8 4294967296) = 9%nat.
Proof. vm_compute. repeat split. Qed.

Lemma Handle_pid_positive w h :
  (0 <? Handle_pid w h) = AddPID (options h) && (0 <? Getpid w).
Proof. unfold Handle_pid. by destruct (AddPID (options h)). Qed.

Lemma Handle_goroutineID_off w h g :
  Handle_goroutineID w h = Some g ->
  (AddGoroutineID (options h) = false -> g = 0)
  /\ (0 <? g) = AddGoroutineID (options h) && (0 <? g).
Proof.
  unfold Handle_goroutineID. destruct (AddGoroutineID (options h)); [done|].
  by intros [= <-].
Qed.

(** *** Upper-case hexadecimal *)

Lemma hex_value_from_upper (d : Hexadecimal.uint) : forall acc,
  hex_value_from acc (hex_upper d) = Some (uint_value_from acc d).
Proof.
  induction d; intros acc; simpl; rewrite ?IHd, ?N.add_0_r; reflexivity.
Qed.

Lemma uint_value_from_of_lu (d : Hexadecimal.uint) : forall acc,
  uint_value_from acc d
  = (HexadecimalPos.Unsigned.of_lu (Hexadecimal.rev d)
     + acc * 16 ^ HexadecimalPos.Unsigned.usize d)%N.
Proof.
  induction d; intros acc; simpl uint_value_from;
    [simpl; lia
    | rewrite IHd; unfold Hexadecimal.rev at 2; simpl Hexadecimal.revapp;
      rewrite HexadecimalPos.Unsigned.of_lu_revapp;
      simpl HexadecimalPos.Unsigned.usize;
      rewrite N.pow_succ_r'; simpl HexadecimalPos.Unsigned.of_lu; lia ..].
Qed.

(** The digits that [%X] prints denote the number. *)
Lemma hex_digits_value (n : N) : hex_value (hex_digits n) = Some n.
Proof.
  unfold hex_value, hex_digits. rewrite hex_value_from_upper, uint_value_from_of_lu.
  rewrite N.mul_0_l, N.add_0_r, <- HexadecimalPos.Unsigned.of_uint_alt.
  f_equal. apply (HexadecimalN.Unsigned.of_to n).
Qed.

Lemma hex_value_from_zeros (k : nat) (s : string) :
  hex_value_from 0 (zeros k +:+ s) = hex_value_from 0 s.
Proof. induction k; simpl; [done|]. exact IHk. Qed.

Lemma Sprintf_0X_value (wid : nat) (v : Z) :
  0 <= v -> hex_value (Sprintf_0X wid v) = Some (Z.to_N v).
Proof.
  intros Hv. unfold Sprintf_0X. assert ((v <? 0) = false) as -> by lia.
  unfold hex_value. rewrite hex_value_from_zeros.
  assert (Z.abs_N v = Z.to_N v) as -> by lia.
  apply hex_digits_value.
Qed.

Lemma hex_digit_value_bound (c : ascii) (d : N) :
  hex_digit_value c = Some d -> (d < 16)%N.
Proof.
  unfold hex_digit_value.
  destruct ((48 <=? N_of_ascii c)%N && (N_of_ascii c <=? 57)%N) eqn:E1.
  { apply andb_prop in E1 as [H1 H2]. apply N.leb_le in H1, H2.
    intros [= <-]. lia. }
  destruct ((65 <=? N_of_ascii c)%N && (N_of_ascii c <=? 70)%N) eqn:E2; [|done].
  apply andb_prop in E2 as [H1 H2]. apply N.leb_le in H1, H2.
  intros [= <-]. lia.
Qed.

(** [k] digits denote a number below [16^k]. *)
Lemma hex_value_from_bound (s : string) : forall acc n,
  hex_value_from acc s = Some n ->
  (n < (acc + 1) * 16 ^ N.of_nat (String.length s))%N.
Proof.
  induction s as [|c s IH]; intros acc n; simpl hex_value_from.
  - intros [= <-]. simpl. lia.
  - destruct (hex_digit_value c) as [d|] eqn:Ed; [|done]. simpl.
    intros H. apply IH in H. apply hex_digit_value_bound in Ed.
    change (String.length (String c s)) with (S (String.length s)).
    rewrite Nat2N.inj_succ, N.pow_succ_r'.
    assert (16 ^ N.of_nat (String.length s) <> 0)%N by (apply N.pow_nonzero; lia).
    nia.
Qed.

Lemma hex_upper_length (d : Hexadecimal.uint) :
  String.length (hex_upper d) = N.to_nat (HexadecimalPos.Unsigned.usize d).
Proof.
  induction d; cbn [hex_upper String.length HexadecimalPos.Unsigned.usize];
    rewrite ?N2Nat.inj_succ; [reflexivity | congruence ..].
Qed.

Lemma unorm_shape (d : Hexadecimal.uint) :
  Hexadecimal.unorm d = Hexadecimal.zero \/ leading_nonzero (Hexadecimal.unorm d).
Proof.
  induction d; try (right; exact I).
  - by left.
  - by rewrite HexadecimalFacts.unorm_D0.
Qed.

Lemma leading_nonzero_value (d : Hexadecimal.uint) :
  leading_nonzero d ->
  (16 ^ (HexadecimalPos.Unsigned.usize d - 1)
   <= HexadecimalPos.Unsigned.of_lu (Hexadecimal.rev d))%N.
Proof.
  destruct d; simpl leading_nonzero; try done; intros _;
    unfold Hexadecimal.rev; simpl Hexadecimal.revapp;
    rewrite HexadecimalPos.Unsigned.of_lu_revapp;
    simpl HexadecimalPos.Unsigned.usize; simpl HexadecimalPos.Unsigned.of_lu;
    rewrite N.sub_1_r, N.pred_succ; lia.
Qed.

(** A number below [16^wid] has at most [wid] digits. *)
Lemma hex_digits_length (n : N) (wid : nat) :
  (0 < wid)%nat -> (n < 16 ^ N.of_nat wid)%N ->
  (String.length (hex_digits n) <= wid)%nat.
Proof.
  intros Hw Hn. unfold hex_digits. rewrite hex_upper_length.
  pose proof (HexadecimalN.Unsigned.to_of (N.to_hex_uint n)) as Hnorm.
  rewrite HexadecimalN.Unsigned.of_to in Hnorm.
  destruct (unorm_shape (N.to_hex_uint n)) as [Hz|Hl]; rewrite <- Hnorm in *.
  - rewrite Hz. simpl. lia.
  - apply leading_nonzero_value in Hl.
    rewrite <- HexadecimalPos.Unsigned.of_uint_alt in Hl.
    change (Pos.of_hex_uint (N.to_hex_uint n)) with (N.of_hex_uint (N.to_hex_uint n)) in Hl.
    rewrite HexadecimalN.Unsigned.of_to in Hl.
    assert (HexadecimalPos.Unsigned.usize (N.to_hex_uint n) - 1 < N.of_nat wid)%N.
    { apply (N.pow_lt_mono_r_iff 16); lia. }
    lia.
Qed.

(** [%0wX] prints exactly [wid] digits up to [16^wid - 1], more beyond. *)
Lemma Sprintf_0X_width (wid : nat) (v : Z) :
  (0 < wid)%nat -> 0 <= v ->
  (String.length (Sprintf_0X wid v) = wid <-> v < 16 ^ Z.of_nat wid).
Proof.
  intros Hw Hv. split.
  - intros Hlen. pose proof (Sprintf_0X_value wid v Hv) as Hval.
    apply hex_value_from_bound in Hval. rewrite Hlen in Hval.
    assert (Z.of_N (Z.to_N v) < Z.of_N (16 ^ N.of_nat wid)) by lia.
    rewrite N2Z.inj_pow, Z2N.id, nat_N_Z in * by lia. done.
  - intros Hlt. unfold Sprintf_0X. assert ((v <? 0) = false) as -> by lia.
    rewrite append_length, zeros_length.
    assert (String.length (hex_digits (Z.abs_N v)) <= wid)%nat; [|lia].
    apply hex_digits_length; [done|].
    assert (Z.of_N (Z.abs_N v) < Z.of_N (16 ^ N.of_nat wid)); [|lia].
    rewrite N2Z.inj_pow, N2Z.inj_abs_N, nat_N_Z. simpl Z.of_N. lia.
Qed.

(** C8, amended.  Whenever [Handle] runs, the PID field is in the line if
    and only if [AddPID] is set and the PID is above zero; the goroutine
    ID field if and only if [AddGoroutineID] is set and the ID found is
    above zero; a value of zero is never printed.  Each field is the number in upper-case
    hexadecimal, padded with zeros to four and eight digits: the width is
    a minimum, kept exactly up to [0xFFFF] and [0xFFFFFFFF], and a larger
    number takes more digits. *)
Theorem PID_and_goroutineID_fields (w : World) (st : State) (h : LogHandler)
    (r : slog.Record_) :
  Handle_runs w h = true ->
  exists goroutineID source,
    Handle_goroutineID w h = Some goroutineID
    /\ Handle_source w st h r = Some source
    /\ (AddGoroutineID (options h) = false -> goroutineID = 0)
    /\ Handle_log_bytes w st h r
       = Some (Join ([Time_Format w (slog.Time r) (TimeLayout (options h))]
               ++ optional (AddPID (options h) && (0 <? Getpid w))
                    (Sprintf_0X 4 (Getpid w))
               ++ optional (AddGoroutineID (options h) && (0 <? goroutineID))
                    (Sprintf_0X 8 goroutineID)
               ++ [Handle_level w h r]
               ++ optional (negb (String.eqb (Handle_with st h) "")) (Handle_with st h)
               ++ [slog.Message r]
               ++ optional (0 <? length (slog.Attrs r))%nat
                    (Join (map (key_value st) (slog.Attrs r)) " ")
               ++ optional (negb (String.eqb source "")) source) " " +:+ LF)
    /\ (0 < Getpid w ->
        hex_value (Sprintf_0X 4 (Getpid w)) = Some (Z.to_N (Getpid w))
        /\ (4 <= String.length (Sprintf_0X 4 (Getpid w)))%nat
        /\ (String.length (Sprintf_0X 4 (Getpid w)) = 4%nat <-> Getpid w <= 65535))
    /\ (0 < goroutineID ->
        hex_value (Sprintf_0X 8 goroutineID) = Some (Z.to_N goroutineID)
        /\ (8 <= String.length (Sprintf_0X 8 goroutineID))%nat
        /\ (String.length (Sprintf_0X 8 goroutineID) = 8%nat <-> goroutineID <= 4294967295)).
Proof.
  intros H. destruct (Handle_runs_spec w st h r H) as (g & s & Hg & Hs & ->).
  exists g, s. destruct (Handle_goroutineID_off _ _ _ Hg) as [Hoff Hpos].
  repeat apply conj; try done.
  - rewrite Handle_log_strings_fields, length_map, Handle_pid_positive, <- Hpos.
    unfold Handle_pid. destruct (AddPID (options h)); [done|].
    by rewrite andb_false_l.
  - intros Hp. repeat apply conj.
    + apply Sprintf_0X_value. lia.
    + apply Sprintf_0X_length. lia.
    + rewrite Sprintf_0X_width by lia. simpl. lia.
    + rewrite Sprintf_0X_width by lia. simpl. lia.
  - intros Hp. repeat apply conj.
    + apply Sprintf_0X_value. lia.
    + apply Sprintf_0X_length. lia.
    + rewrite Sprintf_0X_width by lia. simpl. lia.
    + rewrite Sprintf_0X_width by lia. simpl. lia.
Qed.

Lemma PID_and_goroutineID_fields_witness :
  let sh := NewLogHandler busy_world sample_state 0 None in
  let r := sample_record slog.LevelInfo "message" [] in
  Handle_runs busy_world (snd sh) = true
  /\ exists goroutineID source,
       Handle_goroutineID busy_world (snd sh) = Some goroutineID
       /\ Handle_source busy_world (fst sh) (snd sh) r = Some source.
Proof.
  intros sh r. split; [reflexivity|].
  destruct (PID_and_goroutineID_fields busy_world (fst sh) (snd sh) r eq_refl)
    as (g & s & Hg & Hs & _).
  exists g, s. split; assumption.
Defined.

(** ** The configuration resolver *)

Lemma NewLogHandler_options w st wr (p : option nat) :
  options (snd (NewLogHandler w st wr p))
  = override_by_env w (set_defaults
      (match p with
       | None => zero_options
       | Some q => default zero_options (options_objs st !! q)
       end)).
Proof.
  unfold NewLogHandler. destruct p as [q|]; simpl; [done|].
  by rewrite list_lookup_middle.
Qed.

(** *** [strings.EqualFold] against an ASCII word *)

Lemma all_from_spec (n : nat) : forall lo P,
  all_from n lo P = true -> forall x, lo <= x < lo + Z.of_nat n -> P x = true.
Proof.
  induction n as [|n IH]; intros lo P H x Hx; [lia|].
  simpl in H. apply andb_prop in H as [H0 H1].
  destruct (Z.eq_dec x lo) as [->|Hne]; [done|].
  apply (IH (lo + 1) P H1). lia.
Qed.

Lemma lor_ge_l (a b : Z) : 0 <= b -> a <= Z.lor a b.
Proof.
  intros Hb. pose proof (Zbitwise.Z.sub_lor_l_same_l b a) as H.
  assert (0 <= Z.land b (Z.lnot a)) by (apply Z.land_nonneg; auto).
  lia.
Qed.

Lemma lor_ge_r (a b : Z) : 0 <= a -> b <= Z.lor a b.
Proof. intros Ha. rewrite Z.lor_comm. by apply lor_ge_l. Qed.

(** One byte that is not ASCII makes the [or] of two bytes not ASCII. *)
Lemma lor_RuneSelf (b c : Z) :
  0 <= b < 256 -> 0 <= c < 128 ->
  (RuneSelf <=? Z.lor b c) = (RuneSelf <=? b).
Proof.
  intros Hb Hc.
  assert (all_from 256 0 (fun b => all_from 128 0 (fun c =>
            Bool.eqb (RuneSelf <=? Z.lor b c) (RuneSelf <=? b))) = true) as H
    by (vm_compute; reflexivity).
  pose proof (all_from_spec _ _ _ H b ltac:(lia)) as H1. cbv beta in H1.
  pose proof (all_from_spec _ _ _ H1 c ltac:(lia)) as H2. cbv beta in H2.
  by apply Bool.eqb_prop.
Qed.

Lemma in_range_spec (lo hi b : Z) : in_range lo hi b = true <-> lo <= b <= hi.
Proof. unfold in_range. rewrite andb_true_iff, !Z.leb_le. tauto. Qed.

Ltac range_fact H x H' :=
  pose proof (all_from_spec _ _ _ H x ltac:(lia)) as H'; cbv beta in H'; clear H.

(** A sequence of two bytes decodes to a rune that is not ASCII, and to
    the long s only from [C5 BF]. *)
Lemma decode2 (b0 b1 : Z) :
  194 <= b0 <= 223 -> 128 <= b1 <= 191 ->
  let r := Z.lor (Z.shiftl (Z.land b0 31) 6) (Z.land b1 63) in
  RuneSelf <= r /\ (r = 383 -> b0 = 197 /\ b1 = 191) /\ r <> 8490.
Proof.
  intros H0 H1.
  assert (all_from 30 194 (fun b0 => all_from 64 128 (fun b1 =>
            let r := Z.lor (Z.shiftl (Z.land b0 31) 6) (Z.land b1 63) in
            (RuneSelf <=? r) && implb (r =? 383) ((b0 =? 197) && (b1 =? 191))
            && negb (r =? 8490))) = true) as H by (vm_compute; reflexivity).
  range_fact H b0 Ha. range_fact Ha b1 Hb.
  cbv zeta in Hb |- *. apply andb_prop in Hb as [[Hr H383]%andb_prop H8490].
  apply Z.leb_le in Hr. apply negb_true_iff, Z.eqb_neq in H8490.
  split; [done|]. split; [|done].
  intros E. apply Z.eqb_eq in E. rewrite E in H383. simpl in H383.
  by apply andb_prop in H383 as [?%Z.eqb_eq ?%Z.eqb_eq].
Qed.

(** A sequence of three bytes decodes to a rune that is not ASCII and not
    the long s, and to the Kelvin sign only from [E2 84 AA]. *)
Lemma decode3 (b0 b1 b2 : Z) :
  224 <= b0 <= 239 -> 128 <= b2 <= 191 ->
  in_range (if b0 =? 224 then 160 else 128) (if b0 =? 237 then 159 else 191) b1 = true ->
  let r := Z.lor (Z.shiftl (Z.land b0 15) 12)
             (Z.lor (Z.shiftl (Z.land b1 63) 6) (Z.land b2 63)) in
  RuneSelf <= r /\ r <> 383 /\ (r = 8490 -> b0 = 226 /\ b1 = 132 /\ b2 = 170).
Proof.
  intros H0 H2 H1.
  assert (128 <= b1 <= 191) as H1'.
  { apply in_range_spec in H1. destruct (b0 =? 224), (b0 =? 237); lia. }
  assert (all_from 16 224 (fun b0 => all_from 64 128 (fun b1 => all_from 64 128 (fun b2 =>
            let r := Z.lor (Z.shiftl (Z.land b0 15) 12)
                       (Z.lor (Z.shiftl (Z.land b1 63) 6) (Z.land b2 63)) in
            implb (in_range (if b0 =? 224 then 160 else 128)
                     (if b0 =? 237 then 159 else 191) b1)
              ((RuneSelf <=? r) && negb (r =? 383)
               && implb (r =? 8490) ((b0 =? 226) && (b1 =? 132) && (b2 =? 170)))))) = true)
    as H by (vm_compute; reflexivity).
  range_fact H b0 Ha. range_fact Ha b1 Hb. range_fact Hb b2 Hc.
  cbv zeta in Hc |- *. rewrite H1 in Hc. simpl implb in Hc.
  apply andb_prop in Hc as [[Hr H383]%andb_prop H8490].
  apply Z.leb_le in Hr. apply negb_true_iff, Z.eqb_neq in H383.
  split; [done|]. split; [done|].
  intros E. apply Z.eqb_eq in E. rewrite E in H8490. simpl in H8490.
  by apply andb_prop in H8490 as [[?%Z.eqb_eq ?%Z.eqb_eq]%andb_prop ?%Z.eqb_eq].
Qed.

(** A sequence of four bytes decodes to a rune beyond both. *)
Lemma decode4 (b0 b1 b2 b3 : Z) :
  240 <= b0 <= 244 ->
  in_range (if b0 =? 240 then 144 else 128) (if b0 =? 244 then 143 else 191) b1 = true ->
  let r := Z.lor (Z.shiftl (Z.land b0 7) 18)
             (Z.lor (Z.shiftl (Z.land b1 63) 12)
                (Z.lor (Z.shiftl (Z.land b2 63) 6) (Z.land b3 63))) in
  8490 < r.
Proof.
  intros H0 H1.
  assert (128 <= b1 <= 191) as H1'.
  { apply in_range_spec in H1. destruct (b0 =? 240), (b0 =? 244); lia. }
  assert (all_from 5 240 (fun b0 => all_from 64 128 (fun b1 =>
            implb (in_range (if b0 =? 240 then 144 else 128)
                     (if b0 =? 244 then 143 else 191) b1)
              (8490 <? Z.lor (Z.shiftl (Z.land b0 7) 18) (Z.shiftl (Z.land b1 63) 12))))
          = true) as H by (vm_compute; reflexivity).
  range_fact H b0 Ha. range_fact Ha b1 Hb.
  rewrite H1 in Hb. simpl implb in Hb. apply Z.ltb_lt in Hb.
  cbv zeta. rewrite Z.lor_assoc.
  eapply Z.lt_le_trans; [exact Hb|]. apply lor_ge_l.
  apply Z.lor_nonneg. split.
  - apply Z.shiftl_nonneg, Z.land_nonneg. right. lia.
  - apply Z.land_nonneg. right. lia.
Qed.

Lemma DecodeRune_ascii (b0 : Z) (s1 : list Z) :
  b0 < RuneSelf -> DecodeRune (b0 :: s1) = (b0, 1%nat).
Proof. intros H. unfold DecodeRune. by assert ((b0 <? RuneSelf) = true) as -> by lia. Qed.

Ltac rune_error_leaf :=
  intros [= <- <-]; unfold RuneSelf, RuneError;
  split; [lia|]; split; [lia|]; split; intros; lia.

(** What the first rune of a string says about its bytes, when the first
    byte is not ASCII. *)
Lemma DecodeRune_nonascii (b0 : Z) (s1 : list Z) (r : Z) (n : nat) :
  RuneSelf <= b0 ->
  DecodeRune (b0 :: s1) = (r, n) ->
  RuneSelf <= r /\ (1 <= n)%nat
  /\ (r = 383 -> n = 2%nat /\ b0 = 197 /\ exists rest, s1 = 191 :: rest)
  /\ (r = 8490 -> n = 3%nat /\ b0 = 226 /\ exists rest, s1 = 132 :: 170 :: rest).
Proof.
  intros Hb. unfold DecodeRune.
  assert ((b0 <? RuneSelf) = false) as -> by lia.
  destruct (in_range 194 223 b0) eqn:R2.
  { apply in_range_spec in R2.
    destruct s1 as [|b1 s1]; [rune_error_leaf|].
    destruct (in_range 128 191 b1) eqn:R; [|rune_error_leaf].
    apply in_range_spec in R. intros [= <- <-].
    destruct (decode2 b0 b1 R2 R) as (Hr & H383 & H8490). cbv zeta in *.
    split; [done|]. split; [lia|]. split.
    - intros E. destruct (H383 E) as [-> ->]. eauto.
    - intros E. done. }
  destruct (in_range 224 239 b0) eqn:R3.
  { apply in_range_spec in R3. cbv zeta.
    destruct s1 as [|b1 [|b2 s1]]; [rune_error_leaf..|].
    destruct (in_range _ _ b1) eqn:R1; [|rune_error_leaf].
    destruct (in_range 128 191 b2) eqn:Rb; [|rune_error_leaf].
    apply in_range_spec in Rb. simpl andb. cbv iota. intros [= <- <-].
    destruct (decode3 b0 b1 b2 R3 Rb R1) as (Hr & H383 & H8490). cbv zeta in *.
    split; [done|]. split; [lia|]. split.
    - intros E. done.
    - intros E. destruct (H8490 E) as (-> & -> & ->). eauto. }
  destruct (in_range 240 244 b0) eqn:R4; [|rune_error_leaf].
  apply in_range_spec in R4. cbv zeta.
  destruct s1 as [|b1 [|b2 [|b3 s1]]]; [rune_error_leaf..|].
  destruct (in_range _ _ b1) eqn:R1; [|rune_error_leaf].
  destruct (in_range 128 191 b2 && in_range 128 191 b3) eqn:Rb.
  - rewrite <- andb_assoc, Rb. simpl andb. cbv iota. intros [= <- <-].
    pose proof (decode4 b0 b1 b2 b3 R4 R1) as Hr. cbv zeta in Hr.
    unfold RuneSelf. split; [lia|]. split; [lia|]. split; intros E; lia.
  - rewrite <- andb_assoc, Rb. simpl andb. cbv iota. rune_error_leaf.
Qed.

Lemma runes_from_drop (s : list Z) : forall k, runes_from k s = runes (drop k s).
Proof.
  induction s as [|b s IH]; intros k; [by destruct k|].
  destruct k as [|k]; [done|]. simpl. apply IH.
Qed.

(** The runes of a string: its first rune, then the runes of what is left
    after the bytes of that rune. *)
Lemma runes_cons (b0 : Z) (s1 : list Z) :
  runes (b0 :: s1)
  = fst (DecodeRune (b0 :: s1)) :: runes (drop (snd (DecodeRune (b0 :: s1))) (b0 :: s1)).
Proof.
  unfold runes at 1. cbn [runes_from].
  destruct (DecodeRune (b0 :: s1)) as [r n] eqn:E. cbn [fst snd].
  rewrite runes_from_drop. f_equal.
  assert (1 <= n)%nat as Hn.
  { destruct (Z_lt_ge_dec b0 RuneSelf) as [Hlt|Hge].
    - rewrite DecodeRune_ascii in E by done. injection E as <- <-. lia.
    - apply DecodeRune_nonascii in E as (_ & ? & _); [done|lia]. }
  destruct n as [|n]; [lia|]. reflexivity.
Qed.

(** Comparisons that linear arithmetic decides. *)
Ltac zb :=
  repeat match goal with
    | |- context [?a =? ?b] =>
        first [ replace (a =? b) with true by (symmetry; apply Z.eqb_eq; lia)
              | replace (a =? b) with false by (symmetry; apply Z.eqb_neq; lia) ]
    | |- context [?a <? ?b] =>
        first [ replace (a <? b) with true by (symmetry; apply Z.ltb_lt; lia)
              | replace (a <? b) with false by (symmetry; apply Z.ltb_ge; lia) ]
    | |- context [?a <=? ?b] =>
        first [ replace (a <=? b) with true by (symmetry; apply Z.leb_le; lia)
              | replace (a <=? b) with false by (symmetry; apply Z.leb_gt; lia) ]
    end.

Lemma SimpleFold_upper (c : Z) :
  65 <= c <= 90 -> c <> 75 -> c <> 83 -> SimpleFold c = c + 32.
Proof. intros. unfold SimpleFold, in_range. zb. reflexivity. Qed.

Lemma SimpleFold_lower (c : Z) :
  97 <= c <= 122 -> c <> 107 -> c <> 115 -> SimpleFold c = c - 32.
Proof. intros. unfold SimpleFold, in_range. zb. reflexivity. Qed.

Lemma SimpleFold_other (c : Z) :
  0 <= c < 128 -> ~ 65 <= c <= 90 -> ~ 97 <= c <= 122 -> SimpleFold c = c.
Proof.
  intros. unfold SimpleFold, in_range. zb.
  destruct (Z_le_gt_dec 65 c), (Z_le_gt_dec 97 c); try lia; zb; reflexivity.
Qed.

Ltac bs := cbn [orb andb negb fold_until].

(** The general case of [strings.EqualFold] for an ASCII rune [c] against
    a rune [r] that is not ASCII: the orbit of [c] reaches [r] only from
    [k] to the Kelvin sign and from [s] to the long s. *)
Lemma fold_until_nonascii (c r : Z) :
  0 <= c < 128 -> 128 <= r ->
  (fold_until 4 (SimpleFold c) c r =? r)
  = ((c =? 107) || (c =? 75)) && (r =? 8490)
    || ((c =? 115) || (c =? 83)) && (r =? 383).
Proof.
  intros Hc Hr.
  destruct (Z.eq_dec c 107) as [->|]; [|destruct (Z.eq_dec c 75) as [->|];
    [|destruct (Z.eq_dec c 115) as [->|]; [|destruct (Z.eq_dec c 83) as [->|]]]].
  - change (SimpleFold 107) with 8490. bs. zb. bs.
    destruct (Z.ltb_spec 8490 r).
    + change (SimpleFold 8490) with 75. zb. bs.
      change (SimpleFold 75) with 107. zb. bs. by zb.
    + destruct (Z.eqb_spec r 8490) as [->|]; [by zb|]. bs. by zb.
  - change (SimpleFold 75) with 107. bs. zb. bs.
    change (SimpleFold 107) with 8490. zb. bs.
    destruct (Z.ltb_spec 8490 r).
    + change (SimpleFold 8490) with 75. zb. bs. by zb.
    + destruct (Z.eqb_spec r 8490) as [->|]; [by zb|]. bs. by zb.
  - change (SimpleFold 115) with 383. bs. zb. bs.
    destruct (Z.ltb_spec 383 r).
    + change (SimpleFold 383) with 83. zb. bs.
      change (SimpleFold 83) with 115. zb. bs. by zb.
    + destruct (Z.eqb_spec r 383) as [->|]; [by zb|]. bs. by zb.
  - change (SimpleFold 83) with 115. bs. zb. bs.
    change (SimpleFold 115) with 383. zb. bs.
    destruct (Z.ltb_spec 383 r).
    + change (SimpleFold 383) with 83. zb. bs. by zb.
    + destruct (Z.eqb_spec r 383) as [->|]; [by zb|]. bs. by zb.
  - assert (((c =? 107) || (c =? 75)) && (r =? 8490)
            || ((c =? 115) || (c =? 83)) && (r =? 383) = false) as ->.
    { zb. reflexivity. }
    destruct (Z_le_gt_dec 65 c), (Z_le_gt_dec c 90), (Z_le_gt_dec 97 c), (Z_le_gt_dec c 122);
      try lia.
    + rewrite SimpleFold_upper by lia. bs. zb. bs.
      rewrite SimpleFold_lower by lia. zb. bs. by zb.
    + rewrite SimpleFold_lower by lia. bs. zb. bs.
      rewrite SimpleFold_upper by lia. zb. bs. by zb.
    + rewrite SimpleFold_other by lia. bs. zb. bs. by zb.
    + rewrite SimpleFold_other by lia. bs. zb. bs. by zb.
    + rewrite SimpleFold_other by lia. bs. zb. bs. by zb.
Qed.

Lemma strip_prefix_app (p s : list Z) : strip_prefix p (p ++ s) = Some s.
Proof. induction p as [|x p IH]; simpl; [done|]. by rewrite Z.eqb_refl. Qed.

Lemma strip_prefix_Some (p : list Z) : forall s s',
  strip_prefix p s = Some s' -> s = p ++ s'.
Proof.
  induction p as [|x p IH]; intros s s'; simpl; [by intros [= ->]|].
  destruct s as [|y s]; [done|].
  destruct (Z.eqb_spec x y) as [->|]; [|done].
  intros H. by rewrite (IH _ _ H).
Qed.

(** The cases of one ASCII character [c], split by what they start with. *)
Ltac split_class c :=
  destruct (Z.eq_dec c 107) as [?|?]; [subst c|];
  [|destruct (Z.eq_dec c 75) as [?|?]; [subst c|];
    [|destruct (Z.eq_dec c 115) as [?|?]; [subst c|];
      [|destruct (Z.eq_dec c 83) as [?|?]; [subst c|];
        [|destruct (Z_le_gt_dec 65 c), (Z_le_gt_dec c 90),
            (Z_le_gt_dec 97 c), (Z_le_gt_dec c 122); try lia]]]].

(** One step of the general path against an ASCII character, when the
    string starts with an ASCII byte. *)
Lemma unicode_step_ascii (K : list Z -> bool) (b0 c : Z) (s1 : list Z) :
  0 <= c < 128 -> b0 < 128 ->
  (if c =? b0 then K s1
   else
     let '(sr, tr) := if c <? b0 then (c, b0) else (b0, c) in
     if tr <? RuneSelf then (if is_upper_of sr tr then K s1 else false)
     else
       let r := fold_until 4 (SimpleFold sr) sr tr in
       if r =? tr then K s1 else false)
  = existsb (fun variant =>
               match strip_prefix variant (b0 :: s1) with
               | Some s' => K s'
               | None => false
               end) (fold_variants c).
Proof.
  intros Hc Hb. unfold fold_variants, is_upper_of, in_range, RuneSelf.
  destruct (Z.eq_dec b0 c) as [->|Hne].
  - rewrite Z.eqb_refl. split_class c; zb;
      cbn [existsb app strip_prefix orb andb]; zb; by destruct (K s1).
  - destruct (Z.eq_dec b0 (c - 32)) as [?|]; [|destruct (Z.eq_dec b0 (c + 32)) as [?|]];
      (destruct (Z.ltb_spec c b0); [|];
       split_class c; try lia; zb; cbn [existsb app strip_prefix orb andb]; zb;
       rewrite ?andb_false_r; try reflexivity; try (by destruct (K s1))).
Qed.

(** One step of the general path against an ASCII character, when the
    string starts with a byte that is not ASCII. *)
Lemma unicode_step_nonascii (K : list Z -> bool) (b0 c : Z) (s1 : list Z) (r : Z) (n : nat) :
  0 <= c < 128 -> 128 <= b0 ->
  DecodeRune (b0 :: s1) = (r, n) ->
  (if ((c =? 107) || (c =? 75)) && (r =? 8490) || ((c =? 115) || (c =? 83)) && (r =? 383)
   then K (drop n (b0 :: s1)) else false)
  = existsb (fun variant =>
               match strip_prefix variant (b0 :: s1) with
               | Some s' => K s'
               | None => false
               end) (fold_variants c).
Proof.
  intros Hc Hb E.
  destruct (DecodeRune_nonascii _ _ _ _ Hb E) as (Hr & Hn & H383 & H8490).
  unfold RuneSelf in Hr. unfold fold_variants, in_range.
  destruct (Z.eq_dec r 8490) as [E1|N1]; [|destruct (Z.eq_dec r 383) as [E2|N2]].
  - destruct (H8490 E1) as (-> & -> & rest & ->). subst r.
    split_class c; zb; cbn [existsb app strip_prefix orb andb drop]; zb;
      rewrite ?orb_false_r; reflexivity.
  - destruct (H383 E2) as (-> & -> & rest & ->). subst r.
    split_class c; zb; cbn [existsb app strip_prefix orb andb drop]; zb;
      rewrite ?orb_false_r; reflexivity.
  - assert (strip_prefix [226; 132; 170] (b0 :: s1) = None) as HK.
    { destruct (strip_prefix [226; 132; 170] (b0 :: s1)) as [s'|] eqn:EK; [|done].
      apply strip_prefix_Some in EK. injection EK as -> ->.
      vm_compute in E. by injection E as <- <-. }
    assert (strip_prefix [197; 191] (b0 :: s1) = None) as HL.
    { destruct (strip_prefix [197; 191] (b0 :: s1)) as [s'|] eqn:EL; [|done].
      apply strip_prefix_Some in EL. injection EL as -> ->.
      vm_compute in E. by injection E as <- <-. }
    assert (forall x, x < 128 -> strip_prefix [x] (b0 :: s1) = None) as HA.
    { intros x Hx. cbn [strip_prefix]. by zb. }
    split_class c; zb; cbn [existsb app orb andb];
      rewrite ?HK, ?HL, ?HA by lia; reflexivity.
Qed.

(** One step of the general path against an ASCII character. *)
Lemma unicode_step (b0 c : Z) (s1 t' : list Z) :
  0 <= c < 128 ->
  EqualFold_unicode (runes (b0 :: s1)) (c :: t')
  = existsb (fun variant =>
               match strip_prefix variant (b0 :: s1) with
               | Some s' => EqualFold_unicode (runes s') t'
               | None => false
               end) (fold_variants c).
Proof.
  intros Hc. rewrite runes_cons. cbn [EqualFold_unicode].
  assert ((c <? RuneSelf) = true) as -> by (unfold RuneSelf; lia).
  cbn [drop].
  destruct (Z_lt_ge_dec b0 128) as [Hlt|Hge].
  - rewrite DecodeRune_ascii by done. cbn [fst snd drop].
    apply (unicode_step_ascii (fun s' => EqualFold_unicode (runes s') t')); done.
  - destruct (DecodeRune (b0 :: s1)) as [r n] eqn:E. cbn [fst snd].
    rewrite <- (unicode_step_nonascii (fun s' => EqualFold_unicode (runes s') t') b0 c s1 r n)
      by (done || lia).
    assert (RuneSelf <= b0) as Hb0 by (unfold RuneSelf; lia).
    destruct (DecodeRune_nonascii b0 s1 r n Hb0 E) as (Hr & _).
    unfold RuneSelf in *. zb. rewrite fold_until_nonascii by lia.
    by destruct (_ || _).
Qed.

Lemma existsb_pointwise {A : Type} (f g : A -> bool) (l : list A) :
  (forall x, f x = g x) -> existsb f l = existsb g l.
Proof. intros H. induction l as [|x l IH]; simpl; [done|]. by rewrite H, IH. Qed.

Lemma fold_match_nil (c : Z) (t : list Z) : fold_match [] (c :: t) = false.
Proof.
  cbn [fold_match]. unfold fold_variants.
  by destruct (in_range 97 122 c), (in_range 65 90 c),
    ((c =? 107) || (c =? 75)), ((c =? 115) || (c =? 83)).
Qed.

(** The general path of [strings.EqualFold], against an ASCII word. *)
Lemma EqualFold_unicode_fold_match (t : list Z) :
  Forall (fun c => 0 <= c < 128) t ->
  forall s, EqualFold_unicode (runes s) t = fold_match s t.
Proof.
  induction 1 as [|c t Hc Ht IH]; intros s.
  - destruct s as [|b0 s1]; [done|]. by rewrite runes_cons.
  - destruct s as [|b0 s1]; [by rewrite fold_match_nil|].
    rewrite unicode_step by done. cbn [fold_match].
    apply existsb_pointwise. intros variant.
    destruct (strip_prefix variant (b0 :: s1)); [apply IH|done].
Qed.

(** On an ASCII word the fast path and the general path agree. *)
Lemma EqualFold_bytes_unicode (s : list Z) :
  Forall (fun b => 0 <= b < 256) s ->
  forall t, Forall (fun c => 0 <= c < 128) t ->
  EqualFold_bytes s t = EqualFold_unicode (runes s) t.
Proof.
  induction 1 as [|b0 s1 Hb Hs IH]; intros t Ht.
  - by destruct t.
  - destruct Ht as [|c t' Hc Ht']; [by rewrite runes_cons|].
    cbn [EqualFold_bytes]. rewrite lor_RuneSelf by done.
    destruct (Z.leb_spec RuneSelf b0) as [Hge|Hlt]; [done|].
    rewrite runes_cons, DecodeRune_ascii by done. cbn [fst snd drop EqualFold_unicode].
    unfold RuneSelf in *. rewrite IH by done.
    assert ((c <? 128) = true) as -> by lia. cbn [drop].
    destruct (Z.eqb_spec c b0); [done|].
    destruct (Z.ltb_spec c b0); by zb.
Qed.

Lemma bytes_of_bounded (s : string) : Forall (fun b => 0 <= b < 256) (bytes_of s).
Proof.
  unfold bytes_of. apply Forall_map, Forall_forall. intros a _. unfold byte_val.
  pose proof (N_ascii_bounded a). lia.
Qed.

(** [strings.EqualFold] against an ASCII word is equality up to case. *)
Lemma EqualFold_fold_match (s word : string) :
  Forall (fun c => 0 <= c < 128) (bytes_of word) ->
  EqualFold s word = fold_match (bytes_of s) (bytes_of word).
Proof.
  intros Hw. unfold EqualFold.
  rewrite EqualFold_bytes_unicode by (done || apply bytes_of_bounded).
  by apply EqualFold_unicode_fold_match.
Qed.

(** *** Defaults and overrides *)

Lemma set_defaults_with_defaults (o : LogHandlerOptions) :
  set_defaults o = with_defaults o.
Proof.
  unfold set_defaults, with_defaults.
  destruct o as [l c t p g sl f]. cbn [TimeLayout Level AddColor AddPID AddGoroutineID
    AddSourceLevel SourceFilePath].
  destruct (decide (t = "")) as [->|Ht].
  - by destruct l, sl.
  - destruct l, sl; simpl; by destruct (String.eqb_spec t "").
Qed.

Lemma switch_level_override (v : string) (prior : option slog.Leveler) :
  switch_level v prior = override_level prior v.
Proof.
  unfold switch_level, override_level, level_word, level_words. cbn [find fst snd].
  by destruct (String.eqb v "ERROR"), (String.eqb v "WARN"),
    (String.eqb v "INFO"), (String.eqb v "DEBUG").
Qed.

(** A match up to case starts with a variant of the first character. *)
Lemma fold_match_head (s : list Z) (c : Z) (t : list Z) :
  fold_match s (c :: t) = true ->
  exists variant s', In variant (fold_variants c) /\ s = variant ++ s'.
Proof.
  cbn [fold_match]. intros (variant & Hin & H)%existsb_exists.
  destruct (strip_prefix variant s) as [s'|] eqn:E; [|done].
  apply strip_prefix_Some in E. eauto.
Qed.

(** No string is [true] and [false] up to case at once. *)
Lemma true_false_disjoint (v : string) :
  same_up_to_case v "true" && same_up_to_case v "false" = false.
Proof.
  unfold same_up_to_case.
  destruct (fold_match (bytes_of v) (bytes_of "true")) eqn:Ht; [|done].
  destruct (fold_match (bytes_of v) (bytes_of "false")) eqn:Hf; [|done].
  apply fold_match_head in Ht as (vt & st & Hvt & Et).
  apply fold_match_head in Hf as (vf & sf & Hvf & Ef).
  rewrite Et in Ef. vm_compute in Hvt, Hvf.
  destruct Hvt as [<-|[<-|[]]], Hvf as [<-|[<-|[]]]; discriminate.
Qed.

Lemma ascii_true : Forall (fun c => 0 <= c < 128) (bytes_of "true").
Proof. repeat constructor; vm_compute; done. Qed.

Lemma ascii_false : Forall (fun c => 0 <= c < 128) (bytes_of "false").
Proof. repeat constructor; vm_compute; done. Qed.

Lemma if_flag_override (v : string) (prior : bool) :
  if_flag v prior = override_bool prior v.
Proof.
  unfold if_flag, override_bool, bool_word.
  rewrite (EqualFold_fold_match v "true" ascii_true),
    (EqualFold_fold_match v "false" ascii_false).
  fold (same_up_to_case v "true"). fold (same_up_to_case v "false").
  destruct (String.eqb_spec v "0") as [->|]; [done|].
  destruct (String.eqb_spec v "1") as [->|]; [done|].
  pose proof (true_false_disjoint v).
  by destruct (same_up_to_case v "true"), (same_up_to_case v "false").
Qed.

Lemma override_by_env_resolved (w : World) (d : LogHandlerOptions) :
  override_by_env w d
  = mkOptions
      (override_level (Level d) (Getenv w "GO_NSLOG_LEVEL"))
      (override_bool (AddColor d) (Getenv w "GO_NSLOG_ADD_COLOR"))
      (override_layout (TimeLayout d) (Getenv w "GO_NSLOG_TIME_LAYOUT"))
      (override_bool (AddPID d) (Getenv w "GO_NSLOG_ADD_PID"))
      (override_bool (AddGoroutineID d) (Getenv w "GO_NSLOG_ADD_GOROUTINEID"))
      (override_level (AddSourceLevel d) (Getenv w "GO_NSLOG_ADD_SOURCE_LEVEL"))
      (override_bool (SourceFilePath d) (Getenv w "GO_NSLOG_SOURCE_FILE_PATH")).
Proof.
  unfold override_by_env, override_layout.
  destruct d as [l c t p g sl f]. cbv zeta.
  destruct (String.eqb_spec (Getenv w "GO_NSLOG_TIME_LAYOUT") "") as [E|E].
  - rewrite decide_True by done. simpl.
    by rewrite !switch_level_override, !if_flag_override.
  - rewrite decide_False by done. simpl.
    by rewrite !switch_level_override, !if_flag_override.
Qed.

(** What the words of the environment mean, on examples: the level words
    are exact, the boolean words are up to case, anything else is not a
    word. *)
Example environment_words :
  level_word "DEBUG" = Some slog.LevelDebug /\ level_word "debug" = None
  /\ level_word "WARNING" = None /\ level_word "" = None
  /\ bool_word "true" = Some true /\ bool_word "TRUE" = Some true
  /\ bool_word "tRuE" = Some true /\ bool_word "1" = Some true
  /\ bool_word "false" = Some false /\ bool_word "False" = Some false
  /\ bool_word "0" = Some false /\ bool_word "falſe" = Some false
  /\ bool_word "yes" = None /\ bool_word "" = None /\ bool_word "01" = None
  /\ bool_word " true" = None /\ bool_word "truee" = None.
Proof. vm_compute. repeat split. Qed.

(** C9.  [NewLogHandler] changes the options object that the caller
    passes: with a pointer that is not nil, the defaults and the
    environment overrides are stored through it.  After the call the
    caller's object holds the resolved configuration (each unset field at
    its default, then each field that an accepted environment value
    names at that value), which is also what the handler has, whatever
    the caller had set; no other options object has changed.  So a level
    that the caller set is replaced in the caller's object by the level
    that [GO_NSLOG_LEVEL] names, and an unset level by Info when the
    variable names none. *)
Theorem NewLogHandler_mutates_options (w : World) (st : State) (wr q : nat)
    (o : LogHandlerOptions) :
  options_objs st !! q = Some o ->
  let sh := NewLogHandler w st wr (Some q) in
  options_objs (fst sh) !! q = Some (resolved_options w o)
  /\ options (snd sh) = resolved_options w o
  /\ (forall q', q' <> q -> options_objs (fst sh) !! q' = options_objs st !! q')
  /\ (forall l, level_word (Getenv w "GO_NSLOG_LEVEL") = Some l ->
        Level <$> options_objs (fst sh) !! q = Some (Some (slog.LevelOf l)))
  /\ (level_word (Getenv w "GO_NSLOG_LEVEL") = None -> Level o = None ->
        Level <$> options_objs (fst sh) !! q = Some (Some (slog.LevelOf slog.LevelInfo))).
Proof.
  intros Hq sh.
  assert (options_objs (fst sh) !! q = Some (resolved_options w o)) as Hstored.
  { subst sh. unfold NewLogHandler. simpl. rewrite Hq. simpl.
    rewrite set_defaults_with_defaults, override_by_env_resolved.
    apply list_lookup_insert_eq. by eapply lookup_lt_Some. }
  split; [done|]. split; [|split; [|split]].
  - subst sh. rewrite NewLogHandler_options, Hq. simpl default.
    by rewrite set_defaults_with_defaults, override_by_env_resolved.
  - intros q' Hne. subst sh. unfold NewLogHandler. simpl.
    by apply list_lookup_insert_ne.
  - intros l Hl. rewrite Hstored. simpl. unfold override_level. by rewrite Hl.
  - intros Hl Ho. rewrite Hstored. simpl. unfold override_level.
    by rewrite Hl, Ho.
Qed.

Lemma NewLogHandler_mutates_options_witness :
  let given :=
    mkOptions (Some (slog.LevelOf slog.LevelError)) false "" true false None false in
  let st := set_options_objs [zero_options; given] sample_state in
  let sh := NewLogHandler configured_world st 0 (Some 1%nat) in
  options_objs (fst sh) !! 1%nat
  = Some (mkOptions (Some (slog.LevelOf slog.LevelDebug)) true "2006/01/02 15:04:05"
            true false (Some (slog.LevelOf slog.LevelWarn)) false)
  /\ options (snd sh)
     = mkOptions (Some (slog.LevelOf slog.LevelDebug)) true "2006/01/02 15:04:05"
         true false (Some (slog.LevelOf slog.LevelWarn)) false
  /\ options_objs (fst sh) !! 0%nat = Some zero_options
  /\ Level <$> options_objs (fst sh) !! 1%nat
     = Some (Some (slog.LevelOf slog.LevelDebug)).
Proof.
  intros given st sh.
  destruct (NewLogHandler_mutates_options configured_world st 0 1 given eq_refl)
    as (Hobj & Hopt & Hother & Hlevel & _).
  split; [exact Hobj|]. split; [exact Hopt|]. split.
  - exact (Hother 0%nat ltac:(discriminate)).
  - exact (Hlevel slog.LevelDebug eq_refl).
Defined.

(** C7.  The options of a new handler are the given ones with the unset
    fields at their defaults (level Info, time layout
    [2006/01/02 15:04:05], source level Warn, every flag false), and then
    with the environment applied: a level variable counts only when it is
    exactly one of the four level words, a boolean variable only when it
    is [true] or [false] up to case or [1] or [0], the time layout when it
    is not empty; any other value, and a variable that is not set, leaves
    the field as it was.  A nil options pointer is as an object with every
    field unset.  The resolution always yields a configuration. *)
Theorem NewLogHandler_resolves_configuration (w : World) (st : State) (wr : nat) :
  (forall q o,
     options_objs st !! q = Some o ->
     options (snd (NewLogHandler w st wr (Some q))) = resolved_options w o)
  /\ options (snd (NewLogHandler w st wr None)) = resolved_options w zero_options
  /\ ((forall key, Getenv w key = "") ->
      resolved_options w zero_options
      = mkOptions (Some (slog.LevelOf slog.LevelInfo)) false "2006/01/02 15:04:05"
          false false (Some (slog.LevelOf slog.LevelWarn)) false).
Proof.
  repeat apply conj.
  - intros q o Hq. rewrite NewLogHandler_options, Hq. simpl default.
    by rewrite set_defaults_with_defaults, override_by_env_resolved.
  - rewrite NewLogHandler_options.
    by rewrite set_defaults_with_defaults, override_by_env_resolved.
  - intros Henv. unfold resolved_options. by rewrite !Henv.
Qed.

Lemma NewLogHandler_resolves_configuration_witness :
  options_objs caller_state !! 0%nat = Some zero_options
  /\ options (snd (NewLogHandler configured_world caller_state 0 (Some 0%nat)))
     = mkOptions (Some (slog.LevelOf slog.LevelDebug)) true "2006/01/02 15:04:05"
         false false (Some (slog.LevelOf slog.LevelWarn)) false
  /\ resolved_options (sample_world ∅ 0) zero_options
     = mkOptions (Some (slog.LevelOf slog.LevelInfo)) false "2006/01/02 15:04:05"
         false false (Some (slog.LevelOf slog.LevelWarn)) false.
Proof.
  split; [reflexivity|].
  pose proof (NewLogHandler_resolves_configuration configured_world caller_state 0)
    as (Hq & _ & _).
  pose proof (NewLogHandler_resolves_configuration (sample_world ∅ 0) caller_state 0)
    as (_ & _ & Hd).
  split.
  - rewrite (Hq 0%nat zero_options eq_refl). vm_compute. reflexivity.
  - apply Hd. intros key. unfold Getenv. simpl. by rewrite lookup_empty.
Defined.

(** * Further properties of the accumulator, the renderer and the resolver *)

(** ** Chains of derivations *)

Lemma derive_all_shares w ds : forall sh,
  handler_wf (fst sh) (snd sh) ->
  options (snd (derive_all w sh ds)) = options (snd sh)
  /\ writer (snd (derive_all w sh ds)) = writer (snd sh)
  /\ mutex (snd (derive_all w sh ds)) = mutex (snd sh).
Proof.
  induction ds as [|d ds IH]; intros sh Hwf; [done|].
  change (derive_all w sh (d :: ds)) with (derive_all w (derive w sh d) ds).
  destruct d as [name|xs]; simpl derive.
  - destruct (WithGroup w (fst sh) (snd sh) name) as [st' h'] eqn:E.
    destruct (WithGroup_spec _ _ _ _ _ _ Hwf E) as (_ & _ & Ho & Hw & Hm & Hwf' & _).
    destruct (IH (st', h') Hwf') as (-> & -> & ->). auto.
  - destruct (WithAttrs w (fst sh) (snd sh) xs) as [st' h'] eqn:E.
    destruct (WithAttrs_spec _ _ _ _ _ _ Hwf E) as (_ & _ & Ho & Hw & Hm & Hwf' & _).
    destruct (IH (st', h') Hwf') as (-> & -> & ->). auto.
Qed.

(** X1.  A chain of [WithGroup] and [WithAttrs] calls, of any length and in
    any order, ends in a handler that has the base handler's options,
    writer and mutex, its group names followed by the names of the chain
    in call order, and its attributes followed by those of the chain in
    call order; the base handler still shows its own two sequences. *)
Theorem derivation_chain_appends (w : World) (sh : State * LogHandler)
    (ds : list derivation) :
  handler_wf (fst sh) (snd sh) ->
  let sh' := derive_all w sh ds in
  groupNames_of (fst sh') (snd sh') = groupNames_of (fst sh) (snd sh) ++ names_of ds
  /\ attributes_of (fst sh') (snd sh') = attributes_of (fst sh) (snd sh) ++ attributes_in ds
  /\ options (snd sh') = options (snd sh)
  /\ writer (snd sh') = writer (snd sh)
  /\ mutex (snd sh') = mutex (snd sh)
  /\ groupNames_of (fst sh') (snd sh) = groupNames_of (fst sh) (snd sh)
  /\ attributes_of (fst sh') (snd sh) = attributes_of (fst sh) (snd sh).
Proof.
  intros Hwf sh'. subst sh'.
  destruct (derive_all_spec w ds sh Hwf) as (Hg & Ha & _ & Hext).
  destruct (derive_all_shares w ds sh Hwf) as (Ho & Hw & Hm).
  destruct (snapshot_stable _ _ (snd sh) Hext Hwf) as (Ha0 & Hg0 & _).
  repeat split; assumption.
Qed.

Lemma derivation_chain_appends_witness :
  let w := sample_world ∅ 3 in
  let a := slog.mkAttr "pid" (slog.Int64Value 7) in
  let sh' := derive_all w sample_parent [Attributes [a]; Group "G2"] in
  groupNames_of (fst sh') (snd sh') = ["G1"; "G2"]
  /\ attributes_of (fst sh') (snd sh') = [a]
  /\ groupNames_of (fst sh') (snd sample_parent) = ["G1"].
Proof.
  intros w a sh'.
  pose proof (derivation_chain_appends w sample_parent [Attributes [a]; Group "G2"]
                sample_parent_wf) as (Hg & Ha & _ & _ & _ & Hg0 & _).
  split; [exact Hg|]. split; [exact Ha | exact Hg0].
Defined.

(** ** [Enabled] *)

(** X2.  [Enabled] is closed upwards: a handler that enables a level
    enables every higher one; and a handler at the end of a chain of
    derivations enables exactly the levels that the base handler does. *)
Theorem Enabled_upward_and_inherited (w : World) (sh : State * LogHandler)
    (ds : list derivation) (level level' : slog.Level) :
  handler_wf (fst sh) (snd sh) ->
  (Enabled (fst sh) (snd sh) level = Some true -> level <= level' ->
   Enabled (fst sh) (snd sh) level' = Some true)
  /\ Enabled (fst (derive_all w sh ds)) (snd (derive_all w sh ds)) level
     = Enabled (fst sh) (snd sh) level.
Proof.
  intros Hwf. split.
  - unfold Enabled. destruct (Leveler_Level _ _) as [m|]; [|done]. simpl.
    intros [= H%Z.leb_le] Hle. f_equal. apply Z.leb_le. lia.
  - destruct (derive_all_spec w ds sh Hwf) as (_ & _ & _ & Hext).
    destruct (derive_all_shares w ds sh Hwf) as (Ho & _).
    unfold Enabled, Leveler_Level. rewrite Ho.
    destruct Hext as (_ & _ & _ & _ & _ & _ & ->). done.
Qed.

Lemma Enabled_upward_and_inherited_witness :
  let w := sample_world ∅ 3 in
  Enabled (fst sample_parent) (snd sample_parent) slog.LevelWarn = Some true
  /\ Enabled (fst (derive_all w sample_parent [Group "G2"]))
       (snd (derive_all w sample_parent [Group "G2"])) slog.LevelDebug
     = Some false.
Proof.
  intros w.
  pose proof (Enabled_upward_and_inherited w sample_parent [Group "G2"]
                slog.LevelInfo slog.LevelWarn sample_parent_wf) as [Hup _].
  pose proof (Enabled_upward_and_inherited w sample_parent [Group "G2"]
                slog.LevelDebug slog.LevelDebug sample_parent_wf) as [_ Hin].
  split; [apply Hup; [reflexivity | vm_compute; discriminate] | rewrite Hin; reflexivity].
Defined.

(** ** What [Handle] leaves alone *)





(** ** Edge cases of the accumulator *)




(** ** What [NewLogHandler] leaves alone, and the lock it makes *)

(** X7.  [NewLogHandler] writes to no sink and touches no backing array;
    it makes one new mutex; and with a nil options pointer it leaves
    every options object that exists as it is. *)
Theorem NewLogHandler_frame (w : World) (st : State) (wr : nat) (p : option nat) :
  let sh := NewLogHandler w st wr p in
  writers (fst sh) = writers st
  /\ attr_arrays (fst sh) = attr_arrays st
  /\ string_arrays (fst sh) = string_arrays st
  /\ mutexes (fst sh) = S (mutexes st)
  /\ mutex (snd sh) = mutexes st
  /\ writer (snd sh) = wr
  /\ (p = None ->
      forall q o, options_objs st !! q = Some o -> options_objs (fst sh) !! q = Some o).
Proof.
  unfold NewLogHandler. destruct p as [q|]; simpl; repeat split; try done.
  intros _ q o Hq.
  rewrite list_lookup_insert_ne by (apply lookup_lt_Some in Hq; lia).
  by apply lookup_app_l_Some.
Qed.

Lemma NewLogHandler_frame_witness :
  let sh := NewLogHandler configured_world caller_state 0 None in
  options_objs (fst sh) !! 0%nat = Some zero_options
  /\ writers (fst sh) = writers caller_state.
Proof.
  intros sh.
  pose proof (NewLogHandler_frame configured_world caller_state 0 None)
    as (Hw & _ & _ & _ & _ & _ & Ho).
  split; [exact (Ho eq_refl 0%nat zero_options eq_refl) | exact Hw].
Defined.

(** X8.  Every call of [NewLogHandler] gives its handler a mutex of its
    own: two handlers built by two calls have different mutexes, also
    when they write to the same writer, while every handler derived from
    one of them has the mutex of that one. *)
Theorem NewLogHandler_mutex_of_its_own (w1 w2 : World) (st st' : State) (wr : nat)
    (p1 p2 : option nat) (ds : list derivation) :
  let sh1 := NewLogHandler w1 st wr p1 in
  (mutexes (fst sh1) <= mutexes st')%nat ->
  let sh2 := NewLogHandler w2 st' wr p2 in
  mutex (snd sh1) <> mutex (snd sh2)
  /\ writer (snd sh1) = writer (snd sh2)
  /\ mutex (snd (derive_all w1 sh1 ds)) = mutex (snd sh1)
  /\ mutexes (fst (derive_all w1 sh1 ds)) = mutexes (fst sh1).
Proof.
  intros sh1 Hle sh2.
  assert (mutexes (fst sh1) = S (mutexes st) /\ mutex (snd sh1) = mutexes st
          /\ writer (snd sh1) = wr) as (Hm1 & Hh1 & Hw1).
  { subst sh1. unfold NewLogHandler. by destruct p1. }
  assert (mutex (snd sh2) = mutexes st' /\ writer (snd sh2) = wr) as (Hh2 & Hw2).
  { subst sh2. unfold NewLogHandler. by destruct p2. }
  pose proof (NewLogHandler_wf w1 st wr p1) as Hwf. fold sh1 in Hwf.
  destruct (derive_all_shares w1 ds sh1 Hwf) as (_ & _ & Hm).
  destruct (derive_all_spec w1 ds sh1 Hwf) as (_ & _ & _ & Hext).
  destruct Hext as (_ & _ & _ & Hmx & _).
  repeat split; [lia | congruence | done | done].
Qed.

Lemma NewLogHandler_mutex_of_its_own_witness :
  let w := sample_world ∅ 0 in
  let sh1 := NewLogHandler w sample_state 0 None in
  let sh2 := NewLogHandler w (fst sh1) 0 None in
  mutex (snd sh1) <> mutex (snd sh2) /\ writer (snd sh1) = writer (snd sh2).
Proof.
  intros w sh1 sh2.
  destruct (NewLogHandler_mutex_of_its_own w w sample_state (fst sh1) 0 None None []
              (Nat.le_refl _)) as (Hm & Hw & _).
  split; [exact Hm | exact Hw].
Defined.

(** ** Resolving a configuration twice *)

Lemma override_level_again (prior : option slog.Leveler) (v v' : string) :
  v' = v \/ v' = "" ->
  override_level (override_level prior v) v' = override_level prior v.
Proof.
  intros [-> | ->]; unfold override_level; [|done].
  by destruct (level_word v).
Qed.

Lemma override_bool_again (prior : bool) (v v' : string) :
  v' = v \/ v' = "" ->
  override_bool (override_bool prior v) v' = override_bool prior v.
Proof.
  intros [-> | ->]; unfold override_bool; [|done].
  by destruct (bool_word v) as [b|].
Qed.

Lemma override_layout_again (prior v v' : string) :
  v' = v \/ v' = "" ->
  override_layout (override_layout prior v) v' = override_layout prior v.
Proof.
  intros [-> | ->]; unfold override_layout; [|done].
  by destruct (decide (v = "")).
Qed.

Lemma override_level_is_Some (prior : option slog.Leveler) (v : string) :
  is_Some prior -> is_Some (override_level prior v).
Proof. intros H. unfold override_level. by destruct (level_word v). Qed.

(** Resolved options have nothing left unset. *)
Lemma with_defaults_resolved (w : World) (o : LogHandlerOptions) :
  with_defaults (resolved_options w o) = resolved_options w o.
Proof.
  unfold resolved_options. cbv zeta. unfold with_defaults at 1.
  cbn [Level AddColor TimeLayout AddPID AddGoroutineID AddSourceLevel SourceFilePath].
  destruct (override_level_is_Some (Level (with_defaults o)) (Getenv w "GO_NSLOG_LEVEL"))
    as [l ->]; [by eexists|].
  destruct (override_level_is_Some (AddSourceLevel (with_defaults o))
              (Getenv w "GO_NSLOG_ADD_SOURCE_LEVEL")) as [sl ->]; [by eexists|].
  rewrite decide_False; [done|].
  unfold override_layout, with_defaults. cbn [TimeLayout].
  destruct (decide (Getenv w "GO_NSLOG_TIME_LAYOUT" = "")); [|done].
  by destruct (decide (TimeLayout o = "")).
Qed.

Lemma resolved_options_again (w1 w2 : World) (o : LogHandlerOptions) :
  (forall key, Getenv w2 key = Getenv w1 key \/ Getenv w2 key = "") ->
  resolved_options w2 (resolved_options w1 o) = resolved_options w1 o.
Proof.
  intros Henv. unfold resolved_options at 1. cbv zeta.
  rewrite with_defaults_resolved. unfold resolved_options. cbv zeta.
  cbn [Level AddColor TimeLayout AddPID AddGoroutineID AddSourceLevel SourceFilePath].
  by rewrite !override_level_again, !override_bool_again, !override_layout_again
    by apply Henv.
Qed.

(** X9.  Because [NewLogHandler] stores the resolved options in the
    caller's object, a second call with the same object gives a handler
    with the same options as the first, when each variable of the
    environment is then as it was or is not set: the overrides of the
    first call stay in the object after the variables are gone. *)
Theorem NewLogHandler_again_same_options (w1 w2 : World) (st : State) (wr1 wr2 q : nat)
    (o : LogHandlerOptions) :
  options_objs st !! q = Some o ->
  (forall key, Getenv w2 key = Getenv w1 key \/ Getenv w2 key = "") ->
  let sh1 := NewLogHandler w1 st wr1 (Some q) in
  let sh2 := NewLogHandler w2 (fst sh1) wr2 (Some q) in
  options (snd sh2) = options (snd sh1)
  /\ options_objs (fst sh2) !! q = Some (options (snd sh1)).
Proof.
  intros Hq Henv sh1 sh2.
  assert (forall w s wr o', options_objs s !! q = Some o' ->
            options_objs (fst (NewLogHandler w s wr (Some q))) !! q
              = Some (override_by_env w (set_defaults o'))
            /\ options (snd (NewLogHandler w s wr (Some q)))
                = override_by_env w (set_defaults o')) as Hstored.
  { intros w s wr o' Ho'. split.
    - unfold NewLogHandler. simpl. rewrite Ho'. simpl.
      apply list_lookup_insert_eq. by eapply lookup_lt_Some.
    - by rewrite NewLogHandler_options, Ho'. }
  destruct (Hstored w1 st wr1 o Hq) as (Hobj1 & Hopt1).
  fold sh1 in Hobj1, Hopt1.
  destruct (Hstored w2 (fst sh1) wr2 _ Hobj1) as (Hobj2 & Hopt2).
  fold sh2 in Hobj2, Hopt2.
  assert (override_by_env w2 (set_defaults (override_by_env w1 (set_defaults o)))
          = override_by_env w1 (set_defaults o)) as E.
  { rewrite !set_defaults_with_defaults, !override_by_env_resolved.
    apply (resolved_options_again w1 w2 o Henv). }
  rewrite Hopt2, Hobj2, Hopt1, E. done.
Qed.

Lemma NewLogHandler_again_same_options_witness :
  let sh1 := NewLogHandler configured_world caller_state 0 (Some 0%nat) in
  let sh2 := NewLogHandler (sample_world ∅ 0) (fst sh1) 0 (Some 0%nat) in
  options (snd sh2)
  = mkOptions (Some (slog.LevelOf slog.LevelDebug)) true "2006/01/02 15:04:05"
      false false (Some (slog.LevelOf slog.LevelWarn)) false.
Proof.
  intros sh1 sh2.
  assert (forall key, Getenv (sample_world ∅ 0) key = Getenv configured_world key
                      \/ Getenv (sample_world ∅ 0) key = "") as Henv.
  { intros key. right. unfold Getenv. simpl. by rewrite lookup_empty. }
  subst sh2 sh1.
  rewrite (proj1 (NewLogHandler_again_same_options configured_world (sample_world ∅ 0)
                    caller_state 0 0 0 zero_options eq_refl Henv)).
  vm_compute. reflexivity.
Defined.

(** ** Reading the goroutine ID back *)

Lemma decimal_value_from_of_lu (d : Decimal.uint) : forall acc,
  decimal_value_from acc d
  = (DecimalPos.Unsigned.of_lu (Decimal.rev d)
     + acc * 10 ^ DecimalPos.Unsigned.usize d)%N.
Proof.
  induction d; intros acc; simpl decimal_value_from;
    [simpl; lia
    | rewrite IHd; unfold Decimal.rev at 2; simpl Decimal.revapp;
      rewrite DecimalPos.Unsigned.of_lu_revapp;
      simpl DecimalPos.Unsigned.usize;
      rewrite N.pow_succ_r'; simpl DecimalPos.Unsigned.of_lu; lia ..].
Qed.

Lemma decimal_value_to_uint (n : N) : decimal_value_from 0 (N.to_uint n) = n.
Proof.
  rewrite decimal_value_from_of_lu, N.mul_0_l, N.add_0_r,
    <- DecimalPos.Unsigned.of_uint_alt.
  apply (DecimalN.Unsigned.of_to n).
Qed.

Lemma decimal_value_from_ge (d : Decimal.uint) : forall acc,
  (acc <= decimal_value_from acc d)%N.
Proof.
  induction d; intros acc; simpl; [lia | etransitivity; [|apply IHd]; lia ..].
Qed.

(** [strconv.ParseUint] reads decimal digits back, up to [maxUint64]. *)
Lemma ParseUint_loop_digits (d : Decimal.uint) : forall acc,
  Z.of_N (decimal_value_from acc d) <= maxUint64 ->
  ParseUint_loop (bytes_of (NilEmpty.string_of_uint d)) (Z.of_N acc)
  = Some (Z.of_N (decimal_value_from acc d)).
Proof.
  unfold maxUint64.
  induction d; intros acc Hmax; simpl decimal_value_from in *;
    [reflexivity
    | match goal with
      | H : Z.of_N (decimal_value_from ?a d) <= _ |- _ =>
          pose proof (decimal_value_from_ge d a) as Hge;
          specialize (IHd a H)
      end;
      cbn [NilEmpty.string_of_uint bytes_of list_ascii_of_string map ParseUint_loop];
      match goal with
      | |- context [in_range 48 57 (byte_val ?c)] =>
          let v := eval vm_compute in (byte_val c) in
          change (byte_val c) with v
      end;
      cbn [in_range Z.leb Z.compare Pos.compare Pos.compare_cont andb];
      unfold maxUint64;
      change (18446744073709551615 / 10 + 1) with 1844674407370955162;
      zb; rewrite <- IHd; f_equal; lia ..].
Qed.

Lemma to_uint_not_Nil (n : N) : N.to_uint n <> Decimal.Nil.
Proof.
  destruct n as [|p]; [done|]. apply DecimalPos.Unsigned.to_uint_nonnil.
Qed.

Lemma FormatUint_digits (n : Z) :
  FormatUint n = NilEmpty.string_of_uint (N.to_uint (Z.to_N n)).
Proof.
  unfold FormatUint, NilZero.string_of_uint.
  pose proof (to_uint_not_Nil (Z.to_N n)). by destruct (N.to_uint (Z.to_N n)).
Qed.

(** [strconv.ParseUint] reads back what [strconv.FormatUint] prints. *)
Lemma ParseUint_FormatUint (n : Z) :
  0 <= n <= maxUint64 -> ParseUint (FormatUint n) = n.
Proof.
  intros Hn. rewrite FormatUint_digits. unfold ParseUint.
  pose proof (ParseUint_loop_digits (N.to_uint (Z.to_N n)) 0) as H.
  rewrite decimal_value_to_uint, Z2N.id in H by lia.
  change (Z.of_N 0) with 0 in H. rewrite H by lia.
  pose proof (to_uint_not_Nil (Z.to_N n)). by destruct (N.to_uint (Z.to_N n)).
Qed.

Lemma digits_length (d : Decimal.uint) :
  String.length (NilEmpty.string_of_uint d) = N.to_nat (DecimalPos.Unsigned.usize d).
Proof.
  induction d; cbn [NilEmpty.string_of_uint String.length DecimalPos.Unsigned.usize];
    rewrite ?N2Nat.inj_succ; [reflexivity | congruence ..].
Qed.

Lemma unorm_shape_dec (d : Decimal.uint) :
  Decimal.unorm d = Decimal.zero \/ leading_nonzero_dec (Decimal.unorm d).
Proof.
  induction d; try (right; exact I).
  - by left.
  - by rewrite DecimalFacts.unorm_D0.
Qed.

Lemma leading_nonzero_dec_value (d : Decimal.uint) :
  leading_nonzero_dec d ->
  (10 ^ (DecimalPos.Unsigned.usize d - 1)
   <= DecimalPos.Unsigned.of_lu (Decimal.rev d))%N.
Proof.
  destruct d; simpl leading_nonzero_dec; try done; intros _;
    unfold Decimal.rev; simpl Decimal.revapp;
    rewrite DecimalPos.Unsigned.of_lu_revapp;
    simpl DecimalPos.Unsigned.usize; simpl DecimalPos.Unsigned.of_lu;
    rewrite N.sub_1_r, N.pred_succ; lia.
Qed.

(** A number below [10^k] prints in at most [k] digits. *)
Lemma FormatUint_length (n : Z) (k : nat) :
  (0 < k)%nat -> 0 <= n < 10 ^ Z.of_nat k ->
  (String.length (FormatUint n) <= k)%nat.
Proof.
  intros Hk Hn. rewrite FormatUint_digits, digits_length.
  set (m := Z.to_N n).
  assert (m < 10 ^ N.of_nat k)%N as Hm.
  { assert (Z.of_N m < Z.of_N (10 ^ N.of_nat k)); [|lia].
    rewrite N2Z.inj_pow, nat_N_Z. subst m. rewrite Z2N.id by lia. simpl Z.of_N. lia. }
  pose proof (DecimalN.Unsigned.to_of (N.to_uint m)) as Hnorm.
  rewrite DecimalN.Unsigned.of_to in Hnorm.
  destruct (unorm_shape_dec (N.to_uint m)) as [Hz|Hl]; rewrite <- Hnorm in *.
  - rewrite Hz. simpl. lia.
  - apply leading_nonzero_dec_value in Hl.
    rewrite <- DecimalPos.Unsigned.of_uint_alt in Hl.
    change (Pos.of_uint (N.to_uint m)) with (N.of_uint (N.to_uint m)) in Hl.
    rewrite DecimalN.Unsigned.of_to in Hl.
    assert (DecimalPos.Unsigned.usize (N.to_uint m) - 1 < N.of_nat k)%N.
    { apply (N.pow_lt_mono_r_iff 10); lia. }
    lia.
Qed.

(** Decimal digits have no space among them. *)
Lemma IndexByte_after_digits (d : Decimal.uint) (rest : string) :
  IndexByte (NilEmpty.string_of_uint d +:+ String " " rest) " "
  = Some (String.length (NilEmpty.string_of_uint d)).
Proof.
  induction d; cbn [NilEmpty.string_of_uint String.append IndexByte String.length];
    [reflexivity | cbn [Ascii.eqb Bool.eqb]; rewrite IHd; reflexivity ..].
Qed.

Lemma substring_0_all (s : string) : substring 0 (String.length s) s = s.
Proof. induction s as [|c s IH]; simpl; congruence. Qed.

Lemma substring_0_app (s1 s2 : string) (n : nat) :
  (String.length s1 <= n)%nat ->
  substring 0 n (s1 +:+ s2) = s1 +:+ substring 0 (n - String.length s1) s2.
Proof.
  revert n. induction s1 as [|c s1 IH]; intros n Hn; simpl.
  - by rewrite Nat.sub_0_r.
  - destruct n as [|n]; [simpl in Hn; lia|]. simpl in *. rewrite IH by lia. done.
Qed.

Lemma substring_0_prefix (s1 s2 : string) :
  substring 0 (String.length s1) (s1 +:+ s2) = s1.
Proof.
  rewrite substring_0_app by done. rewrite Nat.sub_diag.
  destruct s2; simpl; by rewrite append_nil_r.
Qed.

Lemma TrimPrefix_goroutine (tail : string) :
  TrimPrefix ("goroutine " +:+ tail) "goroutine " = tail.
Proof.
  unfold TrimPrefix. simpl.
  assert (String.prefix "" tail = true) as -> by (by destruct tail).
  rewrite Nat.sub_0_r. apply substring_0_all.
Qed.

(** X10.  The goroutine ID that [Handle] finds is the one in the stack
    text: for every ID [n] of 64 bits, when the text starts with
    [goroutine n] and a space, as [runtime.Stack] writes it, [Handle]
    reads [n] back, whatever follows; so the field is there exactly for
    [n] above zero. *)
Theorem goroutine_ID_read_back (w : World) (h : LogHandler) (n : Z) (rest : string) :
  0 <= n <= maxUint64 ->
  AddGoroutineID (options h) = true ->
  Stack w = stack_text n rest ->
  Handle_goroutineID w h = Some n /\ stack_has_id w = true.
Proof.
  intros Hn Hflag Hstack.
  assert (String.length (FormatUint n) <= 20)%nat as Hlen.
  { apply FormatUint_length; [lia|]. unfold maxUint64 in Hn. simpl. lia. }
  assert (TrimPrefix (substring 0 64 (Stack w)) "goroutine "
          = FormatUint n +:+ String " " (substring 0 (53 - String.length (FormatUint n)) rest))
    as Hb.
  { rewrite Hstack. unfold stack_text.
    change (substring 0 64 ("goroutine " +:+ FormatUint n +:+ " " +:+ rest))
      with ("goroutine " +:+ substring 0 54 (FormatUint n +:+ String " " rest)).
    rewrite TrimPrefix_goroutine, substring_0_app by lia.
    replace (54 - String.length (FormatUint n))%nat
      with (S (53 - String.length (FormatUint n))) by lia.
    reflexivity. }
  assert (IndexByte (TrimPrefix (substring 0 64 (Stack w)) "goroutine ") " "
          = Some (String.length (FormatUint n))) as Hi.
  { rewrite Hb, FormatUint_digits. apply IndexByte_after_digits. }
  split.
  - unfold Handle_goroutineID. rewrite Hflag. cbv zeta. rewrite Hi. simpl.
    rewrite Hb, substring_0_prefix. f_equal. by apply ParseUint_FormatUint.
  - unfold stack_has_id. by rewrite Hi.
Qed.

Lemma goroutine_ID_read_back_witness :
  let sh := NewLogHandler busy_world sample_state 0 None in
  Handle_goroutineID busy_world (snd sh) = Some 4294967296.
Proof.
  intros sh.
  exact (proj1 (goroutine_ID_read_back busy_world (snd sh) 4294967296 "[running]:"
                  ltac:(vm_compute; split; discriminate) eq_refl eq_refl)).
Defined.

Lemma ParseUint_loop_range (s : list Z) : forall acc v,
  0 <= acc <= maxUint64 ->
  ParseUint_loop s acc = Some v -> 0 <= v <= maxUint64.
Proof.
  unfold maxUint64.
  induction s as [|c s IH]; intros acc v Hacc; cbn [ParseUint_loop]; unfold maxUint64.
  - intros [= <-]. lia.
  - destruct (in_range 48 57 c) eqn:Hc; [|done].
    apply in_range_spec in Hc.
    destruct (_ <=? acc); [intros [= <-]; lia|].
    destruct (Z.ltb_spec 18446744073709551615 (acc * 10 + (c - 48)));
      [intros [= <-]; lia|].
    apply IH. lia.
Qed.

(** X11.  Whatever the stack text is, the goroutine ID that [Handle]
    finds is an unsigned number of 64 bits, so the field, when it is
    there, has from eight to sixteen hexadecimal digits. *)
Theorem goroutine_ID_range (w : World) (h : LogHandler) (g : Z) :
  Handle_goroutineID w h = Some g ->
  0 <= g <= maxUint64
  /\ (8 <= String.length (Sprintf_0X 8 g) <= 16)%nat.
Proof.
  intros H.
  assert (0 <= g <= maxUint64) as Hg.
  { unfold Handle_goroutineID in H.
    destruct (AddGoroutineID (options h)); [|injection H as <-; by unfold maxUint64].
    cbv zeta in H. destruct (IndexByte _ " ") as [i|]; [|done]. simpl in H.
    injection H as <-. unfold ParseUint.
    destruct (substring 0 i _) as [|c s]; [by unfold maxUint64|].
    destruct (ParseUint_loop (bytes_of (String c s)) 0) as [v|] eqn:E;
      [|by unfold maxUint64].
    simpl. apply (ParseUint_loop_range (bytes_of (String c s)) 0 v);
      [by unfold maxUint64|done]. }
  split; [done|]. split; [apply Sprintf_0X_length; lia|].
  unfold Sprintf_0X. assert ((g <? 0) = false) as -> by lia.
  rewrite append_length, zeros_length.
  assert (String.length (hex_digits (Z.abs_N g)) <= 16)%nat; [|lia].
  apply hex_digits_length; [lia|]. unfold maxUint64 in Hg.
  assert (Z.of_N (Z.abs_N g) < Z.of_N (16 ^ N.of_nat 16)); [|lia].
  rewrite N2Z.inj_abs_N. simpl. lia.
Qed.

Lemma goroutine_ID_range_witness :
  0 <= 4294967296 <= maxUint64
  /\ (8 <= String.length (Sprintf_0X 8 4294967296) <= 16)%nat.
Proof.
  exact (goroutine_ID_range busy_world
           (snd (NewLogHandler busy_world sample_state 0 None)) 4294967296 eq_refl).
Defined.

(** ** The level tag *)

(** X12.  Without colour the level tag has five characters, whatever the
    level.  A level that is not one of the four named ones has the tag
    [UNSET], with colour or without, also when it lies between two of
    them; without colour no other level has that tag. *)
Theorem level_tag_width (w : World) (h : LogHandler) (r : slog.Record_) :
  (AddColor (options h) = false -> String.length (Handle_level w h r) = 5%nat)
  /\ (slog.Level_ r <> slog.LevelError -> slog.Level_ r <> slog.LevelWarn ->
      slog.Level_ r <> slog.LevelInfo -> slog.Level_ r <> slog.LevelDebug ->
      Handle_level w h r = "UNSET")
  /\ (Handle_level w h r = "UNSET" -> AddColor (options h) = false ->
      slog.Level_ r <> slog.LevelError /\ slog.Level_ r <> slog.LevelWarn
      /\ slog.Level_ r <> slog.LevelInfo /\ slog.Level_ r <> slog.LevelDebug).
Proof.
  unfold Handle_level, slog.LevelError, slog.LevelWarn, slog.LevelInfo, slog.LevelDebug.
  split; [|split].
  - intros ->.
    by destruct (slog.Level_ r =? 8), (slog.Level_ r =? 4), (slog.Level_ r =? 0),
      (slog.Level_ r =? -4).
  - intros. by zb.
  - intros HU Hc. rewrite Hc in HU. revert HU.
    destruct (Z.eqb_spec (slog.Level_ r) 8); [done|].
    destruct (Z.eqb_spec (slog.Level_ r) 4); [done|].
    destruct (Z.eqb_spec (slog.Level_ r) 0); [done|].
    by destruct (Z.eqb_spec (slog.Level_ r) (-4)).
Qed.

Lemma level_tag_width_witness :
  let r := sample_record 2 "message" [] in
  Handle_level (sample_world ∅ 0) (snd sample_root) r = "UNSET"
  /\ Enabled (fst sample_root) (snd sample_root) (slog.Level_ r) = Some true.
Proof.
  intros r. split; [|reflexivity].
  apply (proj1 (proj2 (level_tag_width (sample_world ∅ 0) (snd sample_root) r)));
    vm_compute; discriminate.
Defined.

(** ** Through the logger *)

(** X13.  Take a logger that [NewLogger] returns and a time at which the
    level of its handler reads as [min_level]; that is Info when the
    options pointer was nil and no variable of the environment was set.
    An event below [min_level] changes nothing: no line is rendered and
    every writer is as it was.  An event at or above it, when [Handle]
    does not panic and the writer given to [NewLogger] works, adds to
    that writer the line that [Handle] renders for it, and changes
    nothing else. *)
Theorem NewLogger_filters_by_level (w0 w : World) (st0 st : State) (wr : nat)
    (p : option nat) (now pc : Z) (level min_level : slog.Level) (msg : string)
    (attrs_ : list slog.Attr) :
  let l := snd (NewLogger w0 st0 wr p) in
  Leveler_Level st (Level (options (Handler l))) = Some min_level ->
  (p = None -> (forall key, Getenv w0 key = "") -> min_level = slog.LevelInfo)
  /\ (level < min_level -> Logger_log w st l now pc level msg attrs_ = Some st)
  /\ (min_level <= level -> Handle_runs w (Handler l) = true ->
      failure (writers st wr) = None ->
      exists line,
        Handle_log_bytes w st (Handler l) (slog.mkRecord now msg level pc attrs_)
          = Some line
        /\ Logger_log w st l now pc level msg attrs_ = Some (wrote wr line st)).
Proof.
  intros l Hm.
  assert (Handler l = snd (NewLogHandler w0 st0 wr p)) as Hl.
  { subst l. unfold NewLogger. by destruct (NewLogHandler w0 st0 wr p). }
  assert (writer (Handler l) = wr) as Hwr.
  { rewrite Hl. unfold NewLogHandler. by destruct p. }
  split; [|split].
  - intros -> Henv.
    rewrite Hl, NewLogHandler_options in Hm. simpl default in Hm.
    rewrite set_defaults_with_defaults, override_by_env_resolved in Hm.
    unfold resolved_options in Hm. rewrite !Henv in Hm.
    simpl in Hm. by injection Hm as <-.
  - intros Hlt. unfold Logger_log, Enabled. rewrite Hm. simpl.
    by assert ((min_level <=? level) = false) as -> by lia.
  - intros Hle Hr Hw.
    destruct (Handle_runs_spec w st (Handler l)
                (slog.mkRecord now msg level pc attrs_) Hr) as (g & s & _ & _ & Hb).
    eexists. split; [exact Hb|].
    unfold Logger_log, Enabled. rewrite Hm. simpl.
    assert ((min_level <=? level) = true) as -> by lia.
    unfold Handle. rewrite Hb. simpl. unfold Write. rewrite Hwr, Hw. done.
Qed.

Lemma NewLogger_filters_by_level_witness :
  let w := sample_world ∅ 0 in
  let sl := NewLogger w sample_state 0 None in
  Logger_log w (fst sl) (snd sl) 0 0 slog.LevelDebug "log message" [] = Some (fst sl)
  /\ Logger_log w (fst sl) (snd sl) 0 0 slog.LevelInfo "log message" []
     = Some (wrote 0 ("2006/01/02 15:04:05 INFO. log message" +:+ LF) (fst sl)).
Proof.
  intros w sl.
  destruct (NewLogger_filters_by_level w w sample_state (fst sl) 0 None 0 0
              slog.LevelDebug slog.LevelInfo "log message" [] eq_refl)
    as (_ & Hlow & _).
  destruct (NewLogger_filters_by_level w w sample_state (fst sl) 0 None 0 0
              slog.LevelInfo slog.LevelInfo "log message" [] eq_refl)
    as (_ & _ & Hhigh).
  split.
  - apply Hlow. reflexivity.
  - destruct (Hhigh ltac:(discriminate) eq_refl eq_refl) as (line & Hb & Hs).
    vm_compute in Hb. injection Hb as <-. exact Hs.
Defined.

(** ** The line of the default configuration *)

(** X14.  With a nil options pointer and no variable of the environment
    set, every handler of the family (the one that [NewLogHandler]
    returns and all derived from it) writes this line: the time in the
    layout [2006/01/02 15:04:05], the level tag without colour, the scope
    prefix if there is one, the message, the attributes of the record if
    there are any, and the source as [(file:line)] with the base name of
    the file only from level Warn up and when the record has a program
    counter.  There is no PID field and no goroutine ID field, and
    [Handle] does not read the stack. *)
Theorem default_configuration_line (w0 w : World) (st0 : State) (wr : nat)
    (ds : list derivation) (r : slog.Record_) :
  (forall key, Getenv w0 key = "") ->
  let sh := derive_all w0 (NewLogHandler w0 st0 wr None) ds in
  let l := slog.Level_ r in
  let tag :=
    if l =? slog.LevelError then "ERROR"
    else if l =? slog.LevelWarn then "WARN."
    else if l =? slog.LevelInfo then "INFO."
    else if l =? slog.LevelDebug then "DEBUG"
    else "UNSET" in
  let prefix := scope_prefix (fst sh) (names_of ds) (attributes_in ds) in
  let frame := CallersFrame w (slog.PC r) in
  Handle_log_bytes w (fst sh) (snd sh) r
  = Some (Join ([Time_Format w (slog.Time r) "2006/01/02 15:04:05"; tag]
                ++ optional (negb (String.eqb prefix "")) prefix
                ++ [slog.Message r]
                ++ optional (0 <? length (slog.Attrs r))%nat
                     (Join (map (key_value (fst sh)) (slog.Attrs r)) " ")
                ++ optional ((slog.LevelWarn <=? l) && negb (slog.PC r =? 0))
                     ("(" +:+ filepath_Base w (fst frame) +:+ ":"
                      +:+ Itoa (snd frame) +:+ ")"))
            " " +:+ LF).
Proof.
  intros Henv sh l tag prefix frame.
  pose proof (NewLogHandler_wf w0 st0 wr None) as Hwf.
  destruct (derive_all_shares w0 ds _ Hwf) as (Hopt & _ & _).
  destruct (derive_all_spec w0 ds _ Hwf) as (_ & _ & _ & Hext).
  destruct Hext as (_ & _ & _ & _ & _ & Hobj & Hlv).
  fold sh in Hopt, Hobj, Hlv.
  assert (options (snd sh)
          = mkOptions (Some (slog.LevelOf slog.LevelInfo)) false "2006/01/02 15:04:05"
              false false (Some (slog.LevelOf slog.LevelWarn)) false) as Ho.
  { rewrite Hopt, NewLogHandler_options. simpl default.
    rewrite set_defaults_with_defaults, override_by_env_resolved.
    unfold resolved_options. by rewrite !Henv. }
  assert (Handle_with (fst sh) (snd sh) = prefix) as Hp.
  { change (Handle_with (fst sh) (snd sh)) with (rendered_prefix sh).
    subst sh prefix. rewrite rendered_prefix_from_root.
    symmetry. by apply scope_prefix_objects. }
  unfold Handle_log_bytes, Handle_pid, Handle_goroutineID, Handle_source, Handle_level.
  rewrite Ho, Hp.
  cbn [AddPID AddGoroutineID AddColor AddSourceLevel SourceFilePath TimeLayout
       Leveler_Level mbind option_bind].
  rewrite Handle_log_strings_fields, length_map.
  change (0 <? 0) with false. fold l frame. fold tag.
  destruct frame as [file line]. cbn [fst snd optional app].
  destruct (slog.LevelWarn <=? l), (negb (slog.PC r =? 0)); cbn [andb optional];
    reflexivity.
Qed.

Lemma default_configuration_line_witness :
  let w := sample_world ∅ 0 in
  let sh := derive_all w (NewLogHandler w sample_state 0 None) [Group "G1"] in
  Handle_log_bytes w (fst sh) (snd sh)
    (slog.mkRecord 0 "log message" slog.LevelInfo 0 [])
  = Some (Join [Time_Format w 0 "2006/01/02 15:04:05"; "INFO."; "G1:"; "log message"] " "
          +:+ LF).
Proof.
  intros w sh.
  assert (forall key, Getenv w key = "") as Henv.
  { intros key. unfold Getenv. simpl. by rewrite lookup_empty. }
  subst sh.
  rewrite (default_configuration_line w w sample_state 0 [Group "G1"]
             (slog.mkRecord 0 "log message" slog.LevelInfo 0 []) Henv).
  vm_compute. reflexivity.
Defined.
